(** * setup-ubuntu: the provisioning orchestrator of [main.py]

    A shallow embedding of [src/main.py].  Pure helpers are Rocq functions
    over [string]; everything that touches the machine (child processes, the
    network, the file system, the password database) goes through a record
    of oracles, [World], and is recorded in a trace of [event]s threaded by
    a small state-and-exception monad. *)

From Stdlib Require Import ZArith Ascii String List Lia.
From stdpp Require Import base option list strings gmap.

Local Open Scope Z_scope.

(** ** Python values the program manipulates *)

(** Python [str.split(sep)] for a one-character separator: the empty string
    splits into one empty field, never into none. *)
Fixpoint split (sep : ascii) (s : string) : list string :=
  match s with
  | EmptyString => [EmptyString]
  | String c s' =>
      if Ascii.eqb c sep then EmptyString :: split sep s'
      else match split sep s' with
           | [] => [String c EmptyString]
           | x :: xs => String c x :: xs
           end
  end.

(** Python [sep.join(l)]. *)
Fixpoint join (sep : string) (l : list string) : string :=
  match l with
  | [] => EmptyString
  | [x] => x
  | x :: xs => x +:+ sep +:+ join sep xs
  end.

(** Python [s.rstrip(c)] for a one-character set. *)
Fixpoint rstrip (c : ascii) (s : string) : string :=
  match s with
  | EmptyString => EmptyString
  | String a s' =>
      let r := rstrip c s' in
      if String.eqb r EmptyString && Ascii.eqb a c then EmptyString
      else String a r
  end.

(** [partition_at c s] is [(s[:i], s[i:])] for [i] the first index of [c]
    in [s], or [len(s)] when [c] does not occur. *)
Fixpoint partition_at (c : ascii) (s : string) : string * string :=
  match s with
  | EmptyString => (EmptyString, EmptyString)
  | String a s' =>
      if Ascii.eqb a c then (EmptyString, s)
      else let '(l, r) := partition_at c s' in (String a l, r)
  end.

(** Every character of [s] satisfies [f]. *)
Fixpoint all_chars (f : ascii -> bool) (s : string) : bool :=
  match s with
  | EmptyString => true
  | String c s' => f c && all_chars f s'
  end.

(** Python [c in s]. *)
Fixpoint mem_char (c : ascii) (s : string) : bool :=
  match s with
  | EmptyString => false
  | String a s' => Ascii.eqb a c || mem_char c s'
  end.

Module posixpath.

Definition sep : ascii := "/"%char.
Definition pathsep : string := ":".
Definition defpath : string := "/bin:/usr/bin".

(** [posixpath.splitroot], without the (always empty) drive: the root is
    ["//"] for precisely two leading slashes, ["/"] for any other number
    of leading slashes, and empty for a relative path. *)
Definition splitroot (p : string) : string * string :=
  match p with
  | String c0 p1 =>
      if Ascii.eqb c0 sep then
        match p1 with
        | String c1 p2 =>
            if Ascii.eqb c1 sep then
              match p2 with
              | String c2 _ =>
                  if Ascii.eqb c2 sep then ("/", p1) else ("//", p2)
              | EmptyString => ("//", p2)
              end
            else ("/", p1)
        | EmptyString => ("/", p1)
        end
      else (EmptyString, p)
  | EmptyString => (EmptyString, p)
  end.

End posixpath.

(** [pathlib.PurePosixPath]: the root and the name segments that remain once
    empty and ["."] segments are dropped. *)
Record PurePosixPath_t := mkPath { root : string; tail : list string }.

Definition keep_segment (x : string) : bool :=
  negb (String.eqb x "") && negb (String.eqb x ".").

Definition PurePosixPath (path : string) : PurePosixPath_t :=
  let '(rt, rel) := posixpath.splitroot path in
  mkPath rt (filter (fun x => Is_true (keep_segment x)) (split posixpath.sep rel)).

Definition parts (p : PurePosixPath_t) : list string :=
  if String.eqb (root p) "" then tail p else root p :: tail p.

(** [urllib.parse.SplitResult]. *)
Record SplitResult := mkSplit {
  scheme : string; netloc : string; path : string;
  query : string; fragment : string }.

(** A value carried by an exception. *)
Inductive pyval :=
  | VStr (s : string)
  | VPath (p : PurePosixPath_t).

Inductive exn :=
  | ValueError (v : pyval)
  | KeyError (k : string)
  | IndexError
  | RuntimeError
  | OSError (what : string)
  | URLError (url : string)
  | TarError
  | CalledProcessError (returncode : Z) (cmd : list string).

(** ** Configuration (lines 30-53) *)

Inductive _Task := MAIN | PREPARE_DOTFILES | PREPARE_DOCKER | INSTALL_MISE.

Definition _Task_value (t : _Task) : string :=
  match t with
  | MAIN => "main"
  | PREPARE_DOTFILES => "prepare_dotfiles"
  | PREPARE_DOCKER => "prepare_docker"
  | INSTALL_MISE => "install_mise"
  end.

Record _Argument := mkArgument { operand : string; options : list string }.

(** An element of [uv_tool]: [str | _Argument]. *)
Inductive str_or_argument :=
  | IsStr (s : string)
  | IsArgument (a : _Argument).

Record Config := mkConfig {
  apt : list string;
  snap : list string;
  snap_classic : list string;
  mise_core : list string;
  mise : list string;
  uv_python : list string;
  uv_tool : list str_or_argument;
  docker_apt : list string;
  docker_image : list string;
  setup : list string }.

(** Lines 85-90. *)
Definition _ensure_argument (str_or_arg : str_or_argument) : _Argument :=
  match str_or_arg with
  | IsStr s => mkArgument s []
  | IsArgument a => a
  end.

(** ** The machine the program runs on *)

(** [http.client.HTTPResponse]: the final URL after redirects, as
    [urllib.parse.urlsplit] decomposes it, and the body. *)
Record HTTPResponse := mkResponse { url : SplitResult; body : string }.

(** What the program does to the outside world, in order. *)
Inductive event :=
  | Print (line : string)
  | Run (args : list string) (env : gmap string string)
  | UrlOpen (target : string)
  | Mkdir (dir : string)
  | CopyTree (src dst : string)
  | WriteFile (file content : string)
  | MkTemp (dir : string)
  | ExtractAll (dir : string)
  | Copy2 (src dst : string)
  | Cleanup (dir : string).

(** The oracles.  An answer may depend on everything done so far: [which]
    finds a command once an earlier step has installed it. *)
Record World := mkWorld {
  environ : gmap string string;                 (* os.environ *)
  getpwuid_dir : option string;                 (* pwd.getpwuid(os.getuid()).pw_dir *)
  getpwnam_dir : string -> option string;       (* pwd.getpwnam(name).pw_dir *)
  geteuid : Z;                                  (* os.geteuid() *)
  getuser : string;                             (* getpass.getuser() *)
  sys_executable : string;                      (* sys.executable *)
  __file__ : string;
  uname_system : string;                        (* platform.uname().system *)
  uname_machine : string;                       (* platform.uname().machine *)
  os_release : exn + gmap string string;        (* platform.freedesktop_os_release() *)
  config_toml : exn + Config;                   (* config.toml with its ten lists *)
  which : list event -> string -> string -> option string;  (* shutil.which(cmd, path=) *)
  wait : list event -> list string -> gmap string string -> option Z;
      (* exit status of the child, [None] when it cannot be started *)
  http : list event -> string -> option HTTPResponse;
  tar_ok : list event -> string -> bool;        (* the archive extracts under the data filter *)
  fs_ok : list event -> event -> bool;          (* the file operation succeeds *)
  mkdtemp : list event -> string }.

(** ** State and exceptions *)

Definition M (A : Type) : Type := list event -> (exn + A) * list event.

Definition ret {A} (a : A) : M A := fun h => (inr a, h).
Definition raise {A} (e : exn) : M A := fun h => (inl e, h).
Definition bind {A B} (m : M A) (k : A -> M B) : M B :=
  fun h => match m h with
           | (inr a, h') => k a h'
           | (inl e, h') => (inl e, h')
           end.
Definition lift {A} (r : exn + A) : M A :=
  match r with inl e => raise e | inr a => ret a end.
Definition ask {A} (f : list event -> A) : M A := fun h => (inr (f h), h).
Definition emit (e : event) : M unit := fun h => (inr tt, h ++ [e]).

Notation "x <- m ;; k" := (bind m (fun x => k))
  (at level 100, m at next level, right associativity, only parsing).
Notation "m ;;; k" := (bind m (fun _ => k))
  (at level 100, right associativity, only parsing).

Definition when (b : bool) (m : M unit) : M unit := if b then m else ret tt.

(** [for x in l: body(x)]. *)
Fixpoint for_each {A} (l : list A) (body : A -> M unit) : M unit :=
  match l with
  | [] => ret tt
  | x :: l' => body x ;;; for_each l' body
  end.

(** [d[k]] on a dict. *)
Definition getitem (d : gmap string string) (k : string) : M string :=
  match d !! k with Some v => ret v | None => raise (KeyError k) end.

(** A file-system operation: attempted, then it succeeds or raises. *)
Definition fs (w : World) (e : event) : M unit :=
  fun h => if fs_ok w h e then (inr tt, h ++ [e]) else (inl (OSError "fs"), h ++ [e]).

(** [urllib.request.urlopen(url)]: the request is issued, then it answers
    or raises. *)
Definition urlopen (w : World) (target : string) : M HTTPResponse :=
  fun h => match http w h target with
           | Some r => (inr r, h ++ [UrlOpen target])
           | None => (inl (URLError target), h ++ [UrlOpen target])
           end.

(** [with TemporaryDirectory() as tmpdir: body]: the directory is removed on
    every exit path. *)
Definition with_TemporaryDirectory {A} (w : World) (body : string -> M A) : M A :=
  fun h => let tmpdir := mkdtemp w h in
           let '(r, h') := body tmpdir (h ++ [MkTemp tmpdir]) in
           (r, h' ++ [Cleanup tmpdir]).

(** ** Library functions the program calls *)

(** [os.path.expanduser] on POSIX.  A leading ["~"] or ["~user"] is replaced
    by that user's home directory: for ["~"] the variable HOME when it is
    set, else the password database; the path is returned unchanged when the
    home directory cannot be found. *)
Definition userhome (w : World) (name : string) : option string :=
  if String.eqb name "" then
    match environ w !! "HOME" with
    | Some h => Some h
    | None => getpwuid_dir w
    end
  else getpwnam_dir w name.

Definition expanduser (w : World) (p : string) : string :=
  match p with
  | String c rest =>
      if Ascii.eqb c "~" then
        let '(name, suffix) := partition_at posixpath.sep rest in
        match userhome w name with
        | None => p
        | Some home =>
            let r := rstrip posixpath.sep home +:+ suffix in
            if String.eqb r "" then "/" else r
        end
      else p
  | EmptyString => p
  end.

Module shlex.

(** The complement of the class [[^\w@%+=:,./-]] under [re.ASCII]. *)
Definition safe (c : ascii) : bool :=
  let n := N_of_ascii c in
  ((97 <=? n) && (n <=? 122))%N || ((65 <=? n) && (n <=? 90))%N
  || ((48 <=? n) && (n <=? 57))%N || mem_char c "_@%+=:,./-".

Definition squote : ascii := "'"%char.
Definition dquote : ascii := "034"%char.

(** [str.replace] of every single quote by the five characters single
    quote, double quote, single quote, double quote, single quote. *)
Fixpoint escape (s : string) : string :=
  match s with
  | EmptyString => EmptyString
  | String c s' =>
      if Ascii.eqb c squote
      then String squote (String dquote (String squote
             (String dquote (String squote (escape s')))))
      else String c (escape s')
  end.

Definition quote (s : string) : string :=
  if String.eqb s "" then "''"
  else if all_chars safe s then s
  else String squote (escape s) +:+ "'".

Definition join (args : list string) : string :=
  join " " (map quote args).

End shlex.

(** [pathlib]: the few operations the program uses. *)
Definition fspath (p : PurePosixPath_t) : string :=
  match root p, tail p with
  | EmptyString, [] => "."
  | r, t => r +:+ join "/" t
  end.

Definition joinpath (p : PurePosixPath_t) (s : string) : PurePosixPath_t :=
  let q := PurePosixPath s in
  if String.eqb (root q) "" then mkPath (root p) (tail p ++ tail q) else q.

Definition parent (p : PurePosixPath_t) : PurePosixPath_t :=
  mkPath (root p) (removelast (tail p)).

Definition with_name (p : PurePosixPath_t) (name : string) : exn + PurePosixPath_t :=
  match tail p with
  | [] => inl (ValueError (VPath p))
  | t => inr (mkPath (root p) (removelast t ++ [name]))
  end.

(** [Path.home()]. *)
Definition Path_home (w : World) : exn + PurePosixPath_t :=
  let homedir := expanduser w "~" in
  match homedir with
  | String c _ => if Ascii.eqb c "~" then inl RuntimeError else inr (PurePosixPath homedir)
  | EmptyString => inr (PurePosixPath homedir)
  end.

(** [p.mkdir(parents=True, exist_ok=True)]. *)
Definition mkdir (w : World) (p : PurePosixPath_t) : M unit := fs w (Mkdir (fspath p)).

(** [subprocess.run(args, env=env, check=True)]. *)
Definition subprocess_run (w : World) (args : list string) (env : gmap string string) : M unit :=
  fun h =>
    match args with
    | [] => (inl IndexError, h)
    | _ :: _ =>
        match wait w h args env with
        | None => (inl (OSError "exec"), h ++ [Run args env])
        | Some returncode =>
            if returncode =? 0 then (inr tt, h ++ [Run args env])
            else (inl (CalledProcessError returncode args), h ++ [Run args env])
        end
    end.

(** ** The program *)

(** Lines 56-61: the optional positional argument, [main] by default. *)
Definition _parse_args (task_arg : option string) : exn + _Task :=
  let name := default (_Task_value MAIN) task_arg in
  if String.eqb name (_Task_value MAIN) then inr MAIN
  else if String.eqb name (_Task_value PREPARE_DOTFILES) then inr PREPARE_DOTFILES
  else if String.eqb name (_Task_value PREPARE_DOCKER) then inr PREPARE_DOCKER
  else if String.eqb name (_Task_value INSTALL_MISE) then inr INSTALL_MISE
  else inl (ValueError (VStr name)).

(** Lines 77-82: the parsed [config.toml], or the error of reading it.
    Building [Config] from the table checks no key, so a file that lacks one
    of the ten lists is not a value of [Config]: its runs, which raise
    [KeyError] where the list is first read, are outside what follows. *)
Definition _load_config (w : World) : M Config := lift (config_toml w).

(** Lines 64-74. *)
Definition _prepare_clean_env (w : World) : gmap string string :=
  let path :=
    join posixpath.pathsep
      [ expanduser w "~/.local/share/mise/shims";
        expanduser w "~/.local/bin";
        posixpath.defpath ] in
  let home := expanduser w "~" in
  <["HOME" := home]> (<["PATH" := path]> ∅).

Definition ansi_green : string := String "027"%char "[32m".
Definition ansi_reset : string := String "027"%char "[0m".

(** Lines 93-99. *)
Definition _check_call (w : World) (args : list string) (env : gmap string string) : M unit :=
  let shell_prefix := if geteuid w =? 0 then "#" else "$" in
  let shell_string := shell_prefix +:+ " " +:+ shlex.join args in
  emit (Print (ansi_green +:+ shell_string +:+ ansi_reset)) ;;;
  subprocess_run w args env.

(** Lines 102-116. *)
Definition _prepare_dotfiles (w : World) : M unit :=
  home <- lift (Path_home w) ;;
  mkdir w (joinpath home ".bashrc.d") ;;;
  mkdir w (joinpath home ".config") ;;;
  let local := joinpath home ".local" in
  mkdir w (joinpath local "bin") ;;;
  mkdir w (joinpath local "share/bash-completion/completions") ;;;
  fs w (CopyTree "/etc/skel" (fspath home)) ;;;
  dotfiles_path <- lift (with_name (PurePosixPath (__file__ w)) "dotfiles") ;;
  fs w (CopyTree (fspath dotfiles_path) (fspath home)).

Definition newline : string := String "010"%char "".

(** Lines 119-147.  [string.Template.substitute] raises [KeyError] for the
    first placeholder the mapping lacks. *)
Definition _prepare_docker (w : World) : M unit :=
  release <- lift (os_release w) ;;
  let gpg_path := PurePosixPath "/etc/apt/keyrings/docker.asc" in
  ID <- getitem release "ID" ;;
  let gpg_url := "https://download.docker.com/linux/" +:+ ID +:+ "/gpg" in
  response <- urlopen w gpg_url ;;
  fs w (WriteFile (fspath gpg_path) (body response)) ;;;
  let deb822_path := PurePosixPath "/etc/apt/sources.list.d/docker.sources" in
  ID <- getitem release "ID" ;;
  VERSION_CODENAME <- getitem release "VERSION_CODENAME" ;;
  let deb822_lines :=
    [ "Types: deb";
      "URIs: https://download.docker.com/linux/" +:+ ID;
      "Suites: " +:+ VERSION_CODENAME;
      "Components: stable";
      "Signed-By: " +:+ fspath gpg_path;
      "" ] in
  fs w (WriteFile (fspath deb822_path) (join newline deb822_lines)).

(** Lines 159-163: the sequence pattern
    [[str(), str(), str(), "releases", "tag", str() as _tag]]. *)
Definition match_release_tag (p : PurePosixPath_t) : exn + string :=
  match parts p with
  | [_; _; _; releases; tag; _tag] =>
      if String.eqb releases "releases" && String.eqb tag "tag" then inr _tag
      else inl (ValueError (VPath p))
  | _ => inl (ValueError (VPath p))
  end.

(** Lines 166-170. *)
Definition match_system (uname_system : string) : exn + string :=
  if String.eqb uname_system "Linux" then inr "linux"
  else inl (ValueError (VStr uname_system)).

(** Lines 171-177. *)
Definition match_machine (uname_machine : string) : exn + string :=
  if String.eqb uname_machine "x86_64" then inr "x64"
  else if String.eqb uname_machine "aarch64" then inr "arm64"
  else inl (ValueError (VStr uname_machine)).

Definition latest_release_url : string := "https://github.com/jdx/mise/releases/latest".
Definition download_url : string := "https://github.com/jdx/mise/releases/download".

(** Line 179. *)
Definition asset_name (tag system machine : string) : string :=
  "mise-" +:+ tag +:+ "-" +:+ system +:+ "-" +:+ machine +:+ ".tar.gz".

(** Line 182. *)
Definition tarball_url (tag name : string) : string :=
  download_url +:+ "/" +:+ tag +:+ "/" +:+ name.

(** [tar.extractall(tmpdir, filter="data")] on the streamed response. *)
Definition extractall (w : World) (response : HTTPResponse) (tmpdir : string) : M unit :=
  fun h => if tar_ok w h (body response) then (inr tt, h ++ [ExtractAll tmpdir])
           else (inl TarError, h ++ [ExtractAll tmpdir]).

(** Lines 150-199. *)
Definition _install_mise (w : World) : M unit :=
  response <- urlopen w latest_release_url ;;
  let split_result := url response in
  let p := PurePosixPath (path split_result) in
  tag <- lift (match_release_tag p) ;;
  system <- lift (match_system (uname_system w)) ;;
  machine <- lift (match_machine (uname_machine w)) ;;
  let name := asset_name tag system machine in
  let tarball := tarball_url tag name in
  with_TemporaryDirectory w (fun tmpdir =>
    response <- urlopen w tarball ;;
    extractall w response tmpdir ;;;
    let src := joinpath (PurePosixPath tmpdir) "mise/bin/mise" in
    home <- lift (Path_home w) ;;
    let dst := joinpath home ".local/bin/mise" in
    mkdir w (parent dst) ;;;
    fs w (Copy2 (fspath src) (fspath dst)) ;;;
    let src := joinpath (PurePosixPath tmpdir) "mise/man/man1/mise.1" in
    home <- lift (Path_home w) ;;
    let dst := joinpath home ".local/share/man/man1/mise.1" in
    mkdir w (parent dst) ;;;
    fs w (Copy2 (fspath src) (fspath dst))).

Definition is_none {A} (o : option A) : bool :=
  match o with None => true | Some _ => false end.

Definition nonempty {A} (l : list A) : bool :=
  match l with [] => false | _ :: _ => true end.

(** Lines 202-323. *)
Definition main (w : World) (task_arg : option string) : M unit :=
  task <- lift (_parse_args task_arg) ;;
  match task with
  | PREPARE_DOTFILES => _prepare_dotfiles w
  | PREPARE_DOCKER => _prepare_docker w
  | INSTALL_MISE => _install_mise w
  | MAIN =>
      config <- _load_config w ;;
      let env := _prepare_clean_env w in
      let user := getuser w in
      (* dotfiles *)
      _check_call w [sys_executable w; __file__ w; _Task_value PREPARE_DOTFILES] env ;;;
      (* Docker repository *)
      PATH <- getitem env "PATH" ;;
      need_docker <- ask (fun h => is_none (which w h "docker" PATH)) ;;
      when need_docker
        (_check_call w ["sudo"; sys_executable w; __file__ w; _Task_value PREPARE_DOCKER] env) ;;;
      (* APT *)
      _check_call w ["sudo"; "apt-get"; "update"] env ;;;
      _check_call w ["sudo"; "apt-get"; "-y"; "dist-upgrade"] env ;;;
      let operands := apt config ++ (if need_docker then docker_apt config else []) in
      when (nonempty operands)
        (_check_call w (["sudo"; "apt-get"; "-y"; "install"; "--"] ++ operands) env) ;;;
      when need_docker
        (_check_call w ["sudo"; "usermod"; "-aG"; "docker"; user] env) ;;;
      _check_call w ["sudo"; "apt-get"; "-y"; "autopurge"] env ;;;
      _check_call w ["sudo"; "apt-get"; "-y"; "autoclean"] env ;;;
      (* Snap *)
      _check_call w ["sudo"; "snap"; "refresh"] env ;;;
      when (nonempty (snap config))
        (_check_call w (["sudo"; "snap"; "install"; "--"] ++ snap config) env) ;;;
      for_each (snap_classic config) (fun operand =>
        _check_call w ["sudo"; "snap"; "install"; "--classic"; "--"; operand] env) ;;;
      (* Mise *)
      PATH <- getitem env "PATH" ;;
      need_mise <- ask (fun h => is_none (which w h "mise" PATH)) ;;
      (if need_mise
       then _check_call w [sys_executable w; __file__ w; _Task_value INSTALL_MISE] env
       else _check_call w ["mise"; "self-update"; "-y"] env ;;;
            _check_call w ["mise"; "upgrade"; "--bump"] env) ;;;
      when (nonempty (mise_core config))
        (_check_call w (["mise"; "use"; "-g"; "--"] ++ mise_core config) env) ;;;
      when (nonempty (mise config))
        (_check_call w (["mise"; "use"; "-g"; "--"] ++ mise config) env) ;;;
      (* uv *)
      _check_call w ["uv"; "python"; "upgrade"] env ;;;
      when (nonempty (uv_python config))
        (_check_call w (["uv"; "python"; "install"; "--"] ++ uv_python config) env) ;;;
      _check_call w ["uv"; "tool"; "upgrade"; "--all"] env ;;;
      for_each (uv_tool config) (fun item =>
        let argument := _ensure_argument item in
        _check_call w
          (["uv"; "tool"; "install"] ++ options argument ++ ["--"; operand argument]) env) ;;;
      (* Docker image *)
      for_each (docker_image config) (fun operand =>
        _check_call w ["sudo"; "docker"; "pull"; "--"; operand] env) ;;;
      (* Setup script *)
      for_each (setup config) (fun command =>
        _check_call w ["/bin/sh"; "-c"; command] env)
  end.

(** ** Vocabulary of the statements *)

(** *** The clean environment *)

(** The three entries of the search path, in order. *)
Definition shim_dir (w : World) : string := expanduser w "~/.local/share/mise/shims".
Definition local_bin (w : World) : string := expanduser w "~/.local/bin".

(** The search path of the clean environment. *)
Definition clean_PATH (w : World) : string :=
  join posixpath.pathsep [shim_dir w; local_bin w; posixpath.defpath].

(** The same machine with another ambient environment. *)
Definition set_environ (w : World) (e : gmap string string) : World :=
  mkWorld e (getpwuid_dir w) (getpwnam_dir w) (geteuid w) (getuser w)
    (sys_executable w) (__file__ w) (uname_system w) (uname_machine w)
    (os_release w) (config_toml w) (which w) (wait w) (http w) (tar_ok w)
    (fs_ok w) (mkdtemp w).

(** The directories a search path names. *)
Definition search_dirs (p : string) : list string := split ":" p.

(** *** Traces *)

(** The line [_check_call] prints before it starts the command. *)
Definition echoed (w : World) (args : list string) : event :=
  Print (ansi_green
         +:+ ((if geteuid w =? 0 then "#" else "$") +:+ " " +:+ shlex.join args)
         +:+ ansi_reset).

(** The argument lists of the commands started in a trace, in order. *)
Definition commands (h : list event) : list (list string) :=
  omap (fun e => match e with Run args _ => Some args | _ => None end) h.

(** The network requests issued in a trace, in order. *)
Definition requests (h : list event) : list string :=
  omap (fun e => match e with UrlOpen u => Some u | _ => None end) h.

(** An action only ever appends to the trace. *)
Definition extends {A} (m : M A) : Prop := forall h, h `prefix_of` (m h).2.

(** An action that appends to the trace without issuing a request. *)
Definition offline {A} (m : M A) : Prop :=
  forall h, exists t, (m h).2 = h ++ t /\ requests t = [].

(** *** Release paths *)

(** The resolution step of [_install_mise] (lines 155-163) applied to the
    path component of the final URL. *)
Definition resolve_tag (url_path : string) : exn + string :=
  match_release_tag (PurePosixPath url_path).

(** A name between slashes: not empty, not the dot segment, no slash. *)
Definition is_segment (s : string) : bool :=
  keep_segment s && negb (mem_char "/" s).

(** The path [/{org}/{repo}/releases/tag/{tag}]. *)
Definition release_path (org repo tag : string) : string :=
  "/" +:+ org +:+ "/" +:+ repo +:+ "/releases/tag/" +:+ tag.

(** The path component of an absolute URL: empty, or starting with a slash. *)
Definition is_url_path (p : string) : Prop :=
  p = "" \/ exists rest, p = String "/" rest.

(** The names of a path: what lies between its slashes, empty names and
    dot names dropped. *)
Definition segments (p : string) : list string :=
  filter (fun x => Is_true (keep_segment x)) (split "/" p).

(** A path that is, character for character,
    [/{org}/{repo}/releases/tag/{tag}]. *)
Definition has_release_shape (p tag : string) : Prop :=
  exists org repo,
    is_segment org = true /\ is_segment repo = true /\ is_segment tag = true
    /\ p = release_path org repo tag.

(** Exactly five segments, the fourth and fifth of which are the markers. *)
Definition five_segments_with_markers (segments : list string) : Prop :=
  length segments = 5%nat
  /\ segments !! 3%nat = Some "releases" /\ segments !! 4%nat = Some "tag".

(** *** Platforms and scenarios *)

(** The platforms [_install_mise] has an archive for. *)
Definition supported (system machine : string) : Prop :=
  system = "Linux" /\ (machine = "x86_64" \/ machine = "aarch64").


(** Scenario 1: every list empty. *)
Definition empty_config : Config := mkConfig [] [] [] [] [] [] [] [] [] [].

(** Scenario 4: one structured tool entry. *)
Definition ruff_config : Config :=
  mkConfig [] [] [] [] [] []
    [IsArgument (mkArgument "ruff" ["--python"; "3.12"])] [] [] [].

(** A release redirect that resolves to the given path on github.com. *)
Definition redirect_to (url_path : string) : HTTPResponse :=
  mkResponse (mkSplit "https" "github.com" url_path "" "") "".

(** Every command exits with status zero. *)
Definition all_succeed (args : list string) : Z := 0.

(** Stub commands with controlled exit codes. *)
Definition stub_status (args : list string) : Z :=
  if bool_decide (args = ["false"]) then 1 else 0.

(** A machine on which a command exits with the status that [status] gives
    it, every request is answered by a redirect to release v2025.1.0,
    every file operation succeeds, and [which] finds exactly the commands
    of [installed]. *)
Definition sample_world (system machine : string) (config : Config)
    (installed : list string) (status : list string -> Z) : World :=
  mkWorld (<["PATH" := "/opt/evil/bin"]> (<["HOME" := "/home/user"]> ∅))
    None (fun _ => None) 1000 "user" "/usr/bin/python3" "/opt/setup/main.py"
    system machine (inl (OSError "os-release")) (inr config)
    (fun _ cmd _ => if bool_decide (cmd ∈ installed)
                    then Some ("/usr/bin/" +:+ cmd) else None)
    (fun _ args _ => Some (status args))
    (fun _ _ => Some (redirect_to "/jdx/mise/releases/tag/v2025.1.0"))
    (fun _ _ => true) (fun _ _ => true) (fun _ => "/tmp/tmpdir").

(** ** Vocabulary of the further properties *)

(** From a trace that satisfies [P], the action either returns [a] in a
    trace that satisfies [Q a] or raises [e] in a trace that satisfies
    [E e]. *)
Definition triple {A} (P : list event -> Prop) (m : M A)
    (Q : A -> list event -> Prop) (E : exn -> list event -> Prop) : Prop :=
  forall h, P h ->
    match m h with
    | (inr a, h') => Q a h'
    | (inl e, h') => E e h'
    end.

(** Whatever the outcome, the action appends only events that satisfy [P]. *)
Definition emits {A} (P : event -> Prop) (m : M A) : Prop :=
  forall h, exists t, (m h).2 = h ++ t /\ Forall P t.

(** The trace of a list of commands, each echoed and then started under
    the clean environment. *)
Definition rendered (w : World) (cmds : list (list string)) : list event :=
  flat_map (fun args => [echoed w args; Run args (_prepare_clean_env w)]) cmds.


(** The commands started in a trace, each with the exit status the machine
    gave it ([None] when it could not be started); [pre] is the trace before. *)
Fixpoint exits_from (w : World) (pre h : list event) : list (list string * option Z) :=
  match h with
  | [] => []
  | Run args env :: h' =>
      (args, wait w pre args env) :: exits_from w (pre ++ [Run args env]) h'
  | e :: h' => exits_from w (pre ++ [e]) h'
  end.

Definition exits (w : World) (h : list event) : list (list string * option Z) :=
  exits_from w [] h.

Definition exited_zero (x : list string * option Z) : Prop := x.2 = Some 0.

(** The commands of a full run in which every command exits with status
    zero: first those up to the store packages, given whether Docker was
    missing when looked for. *)
Definition commands_before_mise (w : World) (config : Config)
    (need_docker : bool) : list (list string) :=
  [sys_executable w; __file__ w; "prepare_dotfiles"]
  :: (if need_docker
      then [["sudo"; sys_executable w; __file__ w; "prepare_docker"]] else [])
  ++ ["sudo"; "apt-get"; "update"]
  :: ["sudo"; "apt-get"; "-y"; "dist-upgrade"]
  :: (if nonempty (apt config ++ (if need_docker then docker_apt config else []))
      then [["sudo"; "apt-get"; "-y"; "install"; "--"]
            ++ apt config ++ (if need_docker then docker_apt config else [])]
      else [])
  ++ (if need_docker then [["sudo"; "usermod"; "-aG"; "docker"; getuser w]] else [])
  ++ ["sudo"; "apt-get"; "-y"; "autopurge"]
  :: ["sudo"; "apt-get"; "-y"; "autoclean"]
  :: ["sudo"; "snap"; "refresh"]
  :: (if nonempty (snap config)
      then [["sudo"; "snap"; "install"; "--"] ++ snap config] else [])
  ++ map (fun operand => ["sudo"; "snap"; "install"; "--classic"; "--"; operand])
       (snap_classic config).

(** Then those from the toolchain manager on, given whether mise was
    missing when looked for. *)
Definition commands_from_mise (w : World) (config : Config)
    (need_mise : bool) : list (list string) :=
  (if need_mise
   then [[sys_executable w; __file__ w; "install_mise"]]
   else [["mise"; "self-update"; "-y"]; ["mise"; "upgrade"; "--bump"]])
  ++ (if nonempty (mise_core config)
      then [["mise"; "use"; "-g"; "--"] ++ mise_core config] else [])
  ++ (if nonempty (mise config)
      then [["mise"; "use"; "-g"; "--"] ++ mise config] else [])
  ++ ["uv"; "python"; "upgrade"]
  :: (if nonempty (uv_python config)
      then [["uv"; "python"; "install"; "--"] ++ uv_python config] else [])
  ++ ["uv"; "tool"; "upgrade"; "--all"]
  :: map (fun item => ["uv"; "tool"; "install"]
                      ++ options (_ensure_argument item)
                      ++ ["--"; operand (_ensure_argument item)])
       (uv_tool config)
  ++ map (fun operand => ["sudo"; "docker"; "pull"; "--"; operand]) (docker_image config)
  ++ map (fun command => ["/bin/sh"; "-c"; command]) (setup config).

(** Docker is not found on the clean PATH once the dotfiles sub-task has run. *)
Definition docker_missing (w : World) : bool :=
  is_none (which w (rendered w [[sys_executable w; __file__ w; "prepare_dotfiles"]])
             "docker" (clean_PATH w)).

(** mise is not found on the clean PATH once the store packages are in. *)
Definition mise_missing (w : World) (config : Config) : bool :=
  is_none (which w (rendered w (commands_before_mise w config (docker_missing w)))
             "mise" (clean_PATH w)).

Definition expected_commands (w : World) (config : Config) : list (list string) :=
  commands_before_mise w config (docker_missing w)
  ++ commands_from_mise w config (mise_missing w config).


(** A configuration with every list populated. *)
Definition full_config : Config :=
  mkConfig ["git"; "curl"] ["yq"] ["code"] ["node"] ["shellcheck"] ["3.12"]
    [IsStr "black"; IsArgument (mkArgument "ruff" ["--python"; "3.12"])]
    ["docker-ce"] ["ubuntu:24.04"] ["echo done"].

(** The events that are not the start of a command. *)
Definition not_run (e : event) : Prop :=
  match e with Run _ _ => False | _ => True end.

(** The events that neither create nor remove a temporary directory. *)
Definition not_tmp (e : event) : Prop :=
  match e with MkTemp _ | Cleanup _ => False | _ => True end.

(** The events that are file operations. *)
Definition is_file_op (e : event) : Prop :=
  match e with
  | Mkdir _ | CopyTree _ _ | WriteFile _ _ | ExtractAll _ | Copy2 _ _ => True
  | _ => False
  end.

(** The full upgrade exits with status 100, every other command with zero. *)
Definition upgrade_fails (args : list string) : Z :=
  if bool_decide (args = ["sudo"; "apt-get"; "-y"; "dist-upgrade"]) then 100 else 0.

(** The same machine with other os-release data. *)
Definition set_os_release (w : World) (r : exn + gmap string string) : World :=
  mkWorld (environ w) (getpwuid_dir w) (getpwnam_dir w) (geteuid w) (getuser w)
    (sys_executable w) (__file__ w) (uname_system w) (uname_machine w)
    r (config_toml w) (which w) (wait w) (http w) (tar_ok w) (fs_ok w) (mkdtemp w).

(** The sample machine as an Ubuntu host with the given os-release data. *)
Definition ubuntu_world (release : gmap string string) : World :=
  set_os_release (sample_world "Linux" "x86_64" empty_config [] all_succeed) (inr release).

(** The sample machine with neither HOME nor a password-database entry. *)
Definition homeless_world : World :=
  set_environ (sample_world "Linux" "x86_64" empty_config [] all_succeed) ∅.

(** From the trace of [pre], the action echoes and starts an initial
    segment of [cmds] and nothing else, and all of [cmds] if it returns. *)
Definition runs_within (w : World) (m : M unit) (pre cmds : list (list string)) : Prop :=
  exists done,
    (m (rendered w pre)).2 = rendered w (pre ++ done)
    /\ done `prefix_of` cmds
    /\ ((m (rendered w pre)).1 = inr tt -> done = cmds).

(** The same from every trace of commands. *)
Definition steps (w : World) (m : M unit) (cmds : list (list string)) : Prop :=
  forall pre, runs_within w m pre cmds.

(** The sample machine on which only the release lookup is answered. *)
Definition archive_unreachable_world : World :=
  mkWorld (<["HOME" := "/home/user"]> ∅)
    None (fun _ => None) 1000 "user" "/usr/bin/python3" "/opt/setup/main.py"
    "Linux" "x86_64" (inl (OSError "os-release")) (inr empty_config)
    (fun _ _ _ => None) (fun _ _ _ => Some 0)
    (fun _ target =>
       if String.eqb target latest_release_url
       then Some (redirect_to "/jdx/mise/releases/tag/v2025.1.0") else None)
    (fun _ _ => true) (fun _ _ => true) (fun _ => "/tmp/tmpdir").

(** The sample machine on which no archive extracts. *)
Definition archive_corrupt_world : World :=
  mkWorld (<["HOME" := "/home/user"]> ∅)
    None (fun _ => None) 1000 "user" "/usr/bin/python3" "/opt/setup/main.py"
    "Linux" "x86_64" (inl (OSError "os-release")) (inr empty_config)
    (fun _ _ _ => None) (fun _ _ _ => Some 0)
    (fun _ _ => Some (redirect_to "/jdx/mise/releases/tag/v2025.1.0"))
    (fun _ _ => false) (fun _ _ => true) (fun _ => "/tmp/tmpdir").

(** The same machine with other exit statuses. *)
Definition set_wait (w : World)
    (f : list event -> list string -> gmap string string -> option Z) : World :=
  mkWorld (environ w) (getpwuid_dir w) (getpwnam_dir w) (geteuid w) (getuser w)
    (sys_executable w) (__file__ w) (uname_system w) (uname_machine w)
    (os_release w) (config_toml w) (which w) f (http w) (tar_ok w) (fs_ok w)
    (mkdtemp w).
(** * Verification *)

(** ** _ensure_argument *)

(** C9: [_ensure_argument] is a total function that wraps a plain string
    [s] as [{operand: s, options: []}], returns a structured argument
    unchanged, and is therefore idempotent. *)
Theorem ensure_argument_idempotent :
  (forall s, _ensure_argument (IsStr s) = mkArgument s [])
  /\ (forall a, _ensure_argument (IsArgument a) = a)
  /\ (forall x, _ensure_argument (IsArgument (_ensure_argument x)) = _ensure_argument x).
Proof.
  split; [reflexivity | split; [reflexivity |]].
  intros [s | a]; reflexivity.
Qed.

(** ** Splitting and joining *)

Section Split.
Variable c : ascii.

Lemma split_nonempty s : split c s <> [].
Proof.
  destruct s as [| a s]; simpl; [discriminate |].
  destruct (Ascii.eqb a c); [discriminate |].
  destruct (split c s); discriminate.
Qed.

Lemma split_app_sep a b :
  split c (a +:+ String c b) = split c a ++ split c b.
Proof.
  induction a as [| x a IH]; simpl.
  - rewrite Ascii.eqb_refl. reflexivity.
  - destruct (Ascii.eqb x c); [rewrite IH; reflexivity |].
    rewrite IH. pose proof (split_nonempty a) as Hne.
    destruct (split c a); [congruence | reflexivity].
Qed.

Lemma split_no_sep s : mem_char c s = false -> split c s = [s].
Proof.
  induction s as [| x s IH]; simpl; [reflexivity |].
  intros H. apply orb_false_iff in H as [Hx Hs].
  rewrite Hx, (IH Hs). reflexivity.
Qed.

Lemma split_fields_no_sep s x : x ∈ split c s -> mem_char c x = false.
Proof.
  revert x. induction s as [| a s IH]; simpl; intros x Hx.
  - apply list_elem_of_singleton in Hx. subst. reflexivity.
  - destruct (Ascii.eqb a c) eqn:E.
    + apply elem_of_cons in Hx as [-> | Hx]; [reflexivity | auto].
    + destruct (split c s) as [| y ys] eqn:Es.
      * apply list_elem_of_singleton in Hx. subst. simpl. rewrite E. reflexivity.
      * apply elem_of_cons in Hx as [-> | Hx].
        -- simpl. rewrite E. apply IH. left.
        -- apply IH. right. exact Hx.
Qed.
End Split.

(** ** Environment Builder *)

Lemma search_dirs_join a b :
  search_dirs (a +:+ ":" +:+ b) = search_dirs a ++ search_dirs b.
Proof. apply (split_app_sep ":" a b). Qed.

Lemma clean_env_PATH w :
  _prepare_clean_env w !! "PATH"
  = Some (shim_dir w +:+ ":" +:+ local_bin w +:+ ":" +:+ posixpath.defpath).
Proof.
  unfold _prepare_clean_env.
  rewrite lookup_insert_ne by discriminate.
  rewrite lookup_insert_eq. reflexivity.
Qed.

(** What [expanduser] does to ["~"] and to ["~/..."]: only the current
    user's home directory is consulted. *)
Lemma expanduser_tilde w :
  expanduser w "~"
  = match userhome w "" with
    | None => "~"
    | Some home =>
        if String.eqb (rstrip posixpath.sep home +:+ "") "" then "/"
        else rstrip posixpath.sep home +:+ ""
    end.
Proof. reflexivity. Qed.

Lemma expanduser_tilde_slash w p :
  expanduser w (String "~" (String "/" p))
  = match userhome w "" with
    | None => String "~" (String "/" p)
    | Some home =>
        if String.eqb (rstrip posixpath.sep home +:+ String "/" p) "" then "/"
        else rstrip posixpath.sep home +:+ String "/" p
    end.
Proof. reflexivity. Qed.

Lemma clean_env_home_only w1 w2 :
  userhome w1 "" = userhome w2 "" -> _prepare_clean_env w1 = _prepare_clean_env w2.
Proof.
  intros H. unfold _prepare_clean_env.
  rewrite !expanduser_tilde, !expanduser_tilde_slash, H. reflexivity.
Qed.

(** C7: the clean environment has exactly the keys PATH and HOME; PATH is
    the shim directory, the local-bin directory and the system default path
    joined, in that order, by the path separator; every directory on it
    comes from one of those three entries, and the caller's own PATH has
    no influence on it. *)
Theorem prepare_clean_env_shape (w : World) :
  dom (_prepare_clean_env w) = ({["PATH"; "HOME"]} : gset string)
  /\ _prepare_clean_env w !! "PATH"
     = Some (join posixpath.pathsep [shim_dir w; local_bin w; posixpath.defpath])
  /\ _prepare_clean_env w !! "HOME" = Some (expanduser w "~")
  /\ (forall PATH d,
        _prepare_clean_env w !! "PATH" = Some PATH ->
        d ∈ search_dirs PATH ->
        d ∈ search_dirs (shim_dir w) \/ d ∈ search_dirs (local_bin w)
        \/ d ∈ search_dirs posixpath.defpath)
  /\ (forall caller_path,
        _prepare_clean_env (set_environ w (<["PATH" := caller_path]> (environ w)))
        = _prepare_clean_env w).
Proof.
  split; [| split; [| split; [| split]]].
  - unfold _prepare_clean_env. rewrite !dom_insert_L, dom_empty_L. set_solver.
  - apply clean_env_PATH.
  - unfold _prepare_clean_env. apply lookup_insert_eq.
  - intros PATH d HP Hd. rewrite clean_env_PATH in HP. injection HP as <-.
    rewrite !search_dirs_join in Hd.
    rewrite !elem_of_app in Hd. tauto.
  - intros caller_path. apply clean_env_home_only.
    unfold userhome. cbn. rewrite lookup_insert_ne by discriminate. reflexivity.
Qed.

(** C10: the clean environment is a function of the resolved home directory
    alone: two machines that resolve ["~"] to the same home directory get the
    same mapping, whatever else their ambient environments hold. *)
Theorem prepare_clean_env_noninterference (w1 w2 : World) :
  userhome w1 "" = userhome w2 "" ->
  _prepare_clean_env w1 = _prepare_clean_env w2.
Proof. apply clean_env_home_only. Qed.

(** ** The monad *)

Lemma bind_inr {A B} (m : M A) (k : A -> M B) h a h1 :
  m h = (inr a, h1) -> bind m k h = k a h1.
Proof. intros H. unfold bind. rewrite H. reflexivity. Qed.

Lemma bind_inv {A B} (m : M A) (k : A -> M B) h b h' :
  bind m k h = (inr b, h') ->
  exists a h1, m h = (inr a, h1) /\ k a h1 = (inr b, h').
Proof.
  unfold bind. destruct (m h) as [[e | a] h1]; [discriminate |].
  intros H. exists a, h1. split; [reflexivity | exact H].
Qed.

Lemma extends_ret {A} (a : A) : extends (ret a).
Proof. intros h. reflexivity. Qed.

Lemma extends_raise {A} e : extends (@raise A e).
Proof. intros h. reflexivity. Qed.

Lemma extends_lift {A} (r : exn + A) : extends (lift r).
Proof. destruct r; [apply extends_raise | apply extends_ret]. Qed.

Lemma extends_ask {A} (f : list event -> A) : extends (ask f).
Proof. intros h. reflexivity. Qed.

Lemma extends_emit e : extends (emit e).
Proof. intros h. apply prefix_app_r. reflexivity. Qed.

Lemma extends_getitem d k : extends (getitem d k).
Proof. unfold getitem. destruct (d !! k); [apply extends_ret | apply extends_raise]. Qed.

Lemma extends_bind {A B} (m : M A) (k : A -> M B) :
  extends m -> (forall a, extends (k a)) -> extends (bind m k).
Proof.
  intros Hm Hk h. unfold bind. specialize (Hm h).
  destruct (m h) as [[e | a] h1]; [exact Hm |].
  etrans; [exact Hm | apply Hk].
Qed.

Lemma extends_when b m : extends m -> extends (when b m).
Proof. destruct b; [auto | intros _; apply extends_ret]. Qed.

Lemma extends_for_each {A} (l : list A) body :
  (forall x, extends (body x)) -> extends (for_each l body).
Proof.
  intros Hb. induction l as [| x l IH]; simpl.
  - apply extends_ret.
  - apply extends_bind; auto.
Qed.

Lemma extends_fs w e : extends (fs w e).
Proof. intros h. unfold fs. destruct (fs_ok w h e); apply prefix_app_r; reflexivity. Qed.

Lemma extends_urlopen w u : extends (urlopen w u).
Proof. intros h. unfold urlopen. destruct (http w h u); apply prefix_app_r; reflexivity. Qed.

Lemma extends_extractall w r d : extends (extractall w r d).
Proof.
  intros h. unfold extractall.
  destruct (tar_ok w h (body r)); apply prefix_app_r; reflexivity.
Qed.

Lemma extends_subprocess_run w args env : extends (subprocess_run w args env).
Proof.
  intros h. unfold subprocess_run. destruct args as [| a args]; [reflexivity |].
  destruct (wait w h (a :: args) env) as [rc |]; [destruct (rc =? 0) |];
    apply prefix_app_r; reflexivity.
Qed.

Lemma extends_check_call w args env : extends (_check_call w args env).
Proof.
  unfold _check_call. apply extends_bind; [apply extends_emit |].
  intros _. apply extends_subprocess_run.
Qed.

Lemma extends_with_TemporaryDirectory {A} w (body : string -> M A) :
  (forall d, extends (body d)) -> extends (with_TemporaryDirectory w body).
Proof.
  intros Hb h. unfold with_TemporaryDirectory.
  specialize (Hb (mkdtemp w h) (h ++ [MkTemp (mkdtemp w h)])).
  destruct (body (mkdtemp w h) (h ++ [MkTemp (mkdtemp w h)])) as [r h'].
  simpl in *. apply prefix_app_r. etrans; [| exact Hb].
  apply prefix_app_r. reflexivity.
Qed.

Create HintDb extends.

#[local] Hint Resolve extends_ret extends_raise extends_lift extends_ask
  extends_emit extends_getitem extends_when extends_for_each extends_fs
  extends_urlopen extends_extractall extends_subprocess_run
  extends_check_call extends_with_TemporaryDirectory : extends.

Ltac extends_steps :=
  repeat (apply extends_bind; [auto with extends | intros ?]); auto with extends.

(** Whatever the task and the machine, the program only appends to its
    trace: no step undoes or rewrites what an earlier step did. *)
Lemma extends_main w task_arg : extends (main w task_arg).
Proof.
  unfold main. apply extends_bind; [auto with extends |].
  intros [| | |].
  - unfold _load_config. extends_steps.
    match goal with |- extends (if ?b then _ else _) => destruct b end;
      extends_steps.
  - unfold _prepare_dotfiles, mkdir. extends_steps.
  - unfold _prepare_docker. extends_steps.
  - unfold _install_mise. extends_steps.
    apply extends_with_TemporaryDirectory. intros d. unfold mkdir. extends_steps.
Qed.

(** ** Command Runner *)

Lemma check_call_unfold w args env h :
  _check_call w args env h = subprocess_run w args env (h ++ [echoed w args]).
Proof. reflexivity. Qed.

(** C6: for a non-empty argument list whose child process runs to an exit
    status, [_check_call] raises [CalledProcessError] exactly when that
    status is non-zero and returns nothing exactly when it is zero. *)
Theorem check_call_fails_iff_nonzero
    (w : World) (args : list string) (env : gmap string string)
    (h : list event) (returncode : Z) :
  args <> [] ->
  wait w (h ++ [echoed w args]) args env = Some returncode ->
  ((_check_call w args env h).1 = inl (CalledProcessError returncode args)
     <-> returncode <> 0)
  /\ ((_check_call w args env h).1 = inr tt <-> returncode = 0)
  /\ (forall e, (_check_call w args env h).1 = inl e ->
                e = CalledProcessError returncode args).
Proof.
  intros Hargs Hwait. rewrite check_call_unfold. unfold subprocess_run.
  destruct args as [| a args]; [congruence |]. rewrite Hwait.
  destruct (Z.eqb_spec returncode 0) as [-> | Hne]; simpl.
  - split; [| split]; [split | split |]; try discriminate; try congruence; auto.
  - split; [| split]; [split | split |]; try discriminate; try congruence; auto.
Qed.

(** ** Release Resolver *)

Lemma is_segment_keep s : is_segment s = true -> Is_true (keep_segment s).
Proof. unfold is_segment. intros H. apply andb_true_iff in H as [H _]. rewrite H. exact I. Qed.

Lemma is_segment_no_sep s : is_segment s = true -> mem_char "/" s = false.
Proof.
  unfold is_segment. intros H. apply andb_true_iff in H as [_ H].
  apply negb_true_iff in H. exact H.
Qed.

Lemma tail_segments p x : x ∈ tail (PurePosixPath p) -> is_segment x = true.
Proof.
  unfold PurePosixPath. destruct (posixpath.splitroot p) as [rt rel]. simpl.
  intros Hx. apply list_elem_of_filter in Hx as [Hk Hx].
  apply split_fields_no_sep in Hx. unfold is_segment.
  change posixpath.sep with "/"%char in Hx. rewrite Hx.
  apply Is_true_true in Hk. rewrite Hk. reflexivity.
Qed.

Lemma PurePosixPath_release_path org repo tag :
  is_segment org = true -> is_segment repo = true -> is_segment tag = true ->
  PurePosixPath (release_path org repo tag)
  = mkPath "/" [org; repo; "releases"; "tag"; tag].
Proof.
  intros Ho Hr Ht. unfold release_path, PurePosixPath.
  destruct org as [| c0 org']; [discriminate |].
  pose proof (is_segment_no_sep _ Ho) as Hc. simpl in Hc.
  apply orb_false_iff in Hc as [Hc0 _].
  change ("/" +:+ String c0 org' +:+ "/" +:+ repo +:+ "/releases/tag/" +:+ tag)
    with (String "/" (String c0 (org' +:+ String "/" (repo +:+
            String "/" ("releases" +:+ String "/" ("tag" +:+ String "/" tag)))))).
  unfold posixpath.splitroot.
  change (Ascii.eqb "/" posixpath.sep) with true. cbv iota.
  change posixpath.sep with "/"%char. rewrite Hc0.
  change (String c0 (org' +:+ ?x)) with (String c0 org' +:+ x).
  rewrite !split_app_sep.
  rewrite !split_no_sep by (apply is_segment_no_sep; assumption || reflexivity).
  simpl app. f_equal.
  rewrite !filter_cons_True by (apply is_segment_keep; assumption || reflexivity).
  reflexivity.
Qed.

Lemma url_path_parts p :
  is_url_path p ->
  parts (PurePosixPath p) = []
  \/ exists r, parts (PurePosixPath p) = r :: tail (PurePosixPath p).
Proof.
  intros [-> | [rest ->]]; [left; reflexivity | right].
  unfold PurePosixPath, posixpath.splitroot, parts.
  change (Ascii.eqb "/" posixpath.sep) with true. cbv iota.
  destruct rest as [| c1 p2]; [eexists; reflexivity |].
  destruct (Ascii.eqb c1 posixpath.sep); [| eexists; reflexivity].
  destruct p2 as [| c2 p3]; [eexists; reflexivity |].
  destruct (Ascii.eqb c2 posixpath.sep); eexists; reflexivity.
Qed.

Lemma match_release_tag_spec p :
  (exists a b c tag,
      parts p = [a; b; c; "releases"; "tag"; tag] /\ match_release_tag p = inr tag)
  \/ ((forall a b c tag, parts p <> [a; b; c; "releases"; "tag"; tag])
      /\ match_release_tag p = inl (ValueError (VPath p))).
Proof.
  unfold match_release_tag.
  destruct (parts p) as [| a [| b [| c [| r [| t [| tag [| x l]]]]]]];
    try (right; split; [intros; discriminate | reflexivity]).
  destruct (String.eqb_spec r "releases") as [-> | Hr];
    [destruct (String.eqb_spec t "tag") as [-> | Ht] |]; simpl.
  - left. exists a, b, c, tag. split; reflexivity.
  - right. split; [intros ? ? ? ? H; congruence | reflexivity].
  - right. split; [intros ? ? ? ? H; congruence | reflexivity].
Qed.

Lemma split_leading_sep c s : split c (String c s) = "" :: split c s.
Proof. simpl. rewrite Ascii.eqb_refl. reflexivity. Qed.

(** The names [pathlib] keeps are the segments of the path, whatever its
    root. *)
Lemma tail_PurePosixPath p : tail (PurePosixPath p) = segments p.
Proof.
  unfold PurePosixPath, posixpath.splitroot, segments.
  change posixpath.sep with "/"%char.
  destruct p as [| c0 p1]; [reflexivity |].
  destruct (Ascii.eqb_spec c0 "/") as [-> | H0]; [| reflexivity].
  rewrite split_leading_sep, filter_cons_False by (simpl; tauto).
  destruct p1 as [| c1 p2]; [reflexivity |].
  destruct (Ascii.eqb_spec c1 "/") as [-> | H1]; [| reflexivity].
  destruct p2 as [| c2 p3]; [reflexivity |].
  destruct (Ascii.eqb_spec c2 "/") as [-> | H2]; [reflexivity |].
  simpl tail. rewrite split_leading_sep, filter_cons_False by (simpl; tauto).
  reflexivity.
Qed.

Lemma has_release_shape_segments p tag :
  has_release_shape p tag ->
  exists org repo, segments p = [org; repo; "releases"; "tag"; tag].
Proof.
  intros (org & repo & Ho & Hr & Ht & ->). exists org, repo.
  rewrite <- tail_PurePosixPath, PurePosixPath_release_path by assumption.
  reflexivity.
Qed.

Lemma has_release_shape_split p tag :
  has_release_shape p tag ->
  exists org repo, split "/" p = [""; org; repo; "releases"; "tag"; tag].
Proof.
  intros (org & repo & Ho & Hr & Ht & ->). exists org, repo. unfold release_path.
  change ("/" +:+ org +:+ "/" +:+ repo +:+ "/releases/tag/" +:+ tag)
    with (String "/" (org +:+ String "/" (repo +:+
            String "/" ("releases" +:+ String "/" ("tag" +:+ String "/" tag))))).
  rewrite split_leading_sep, !split_app_sep.
  rewrite !split_no_sep by (apply is_segment_no_sep; assumption || reflexivity).
  reflexivity.
Qed.

Lemma resolve_tag_segments p tag :
  is_url_path p ->
  resolve_tag p = inr tag
  <-> exists org repo, segments p = [org; repo; "releases"; "tag"; tag].
Proof.
  intros Hp. unfold resolve_tag. rewrite <- tail_PurePosixPath. split.
  - intros Hres.
    destruct (match_release_tag_spec (PurePosixPath p))
      as [(a & b & c & tag' & Hparts & Hm) | [_ Hm]]; [| congruence].
    assert (tag' = tag) as -> by congruence.
    destruct (url_path_parts p Hp) as [Hnil | [r Hr]]; [congruence |].
    rewrite Hparts in Hr. injection Hr as _ Htail. eauto.
  - intros (org & repo & Htail).
    destruct (url_path_parts p Hp) as [Hnil | [r Hr]].
    + destruct Hp as [-> | [rest ->]]; [discriminate Htail |].
      unfold parts in Hnil. rewrite Htail in Hnil.
      destruct (String.eqb (root (PurePosixPath (String "/" rest))) ""); discriminate.
    + unfold match_release_tag. rewrite Hr, Htail. reflexivity.
Qed.

(** C1 (as amended): a URL path resolves to [{tag}] exactly when its
    segments, empty and dot segments dropped as [pathlib] drops them, are
    [{org}], [{repo}], [releases], [tag], [{tag}]; so every path that is
    [/{org}/{repo}/releases/tag/{tag}] resolves to exactly [{tag}], and so
    does the same path with doubled slashes, dot segments or a trailing
    slash; every other URL path makes the resolver raise [ValueError] on
    the path, and no tag is returned. *)
Theorem resolve_tag_shape (p : string) :
  is_url_path p ->
  (forall tag,
      resolve_tag p = inr tag
      <-> exists org repo, segments p = [org; repo; "releases"; "tag"; tag])
  /\ (forall tag, has_release_shape p tag -> resolve_tag p = inr tag)
  /\ ((forall org repo tag, segments p <> [org; repo; "releases"; "tag"; tag]) ->
      resolve_tag p = inl (ValueError (VPath (PurePosixPath p)))).
Proof.
  intros Hp. split; [| split].
  - intros tag. apply resolve_tag_segments, Hp.
  - intros tag Hshape. apply (resolve_tag_segments p tag Hp).
    apply has_release_shape_segments, Hshape.
  - intros Hno. unfold resolve_tag.
    destruct (match_release_tag_spec (PurePosixPath p))
      as [(a & b & c & tag & _ & Hm) | [_ Hm]]; [exfalso | exact Hm].
    apply (resolve_tag_segments p tag Hp) in Hm as (org & repo & Hseg).
    exact (Hno org repo tag Hseg).
Qed.

(** C1 on scenario 2, on the same path written with a doubled slash, a dot
    segment and a trailing slash, and on scenario 3, where the [tag]
    segment is missing. *)
Lemma resolve_tag_shape_witness :
  resolve_tag "/org/proj/releases/tag/v1.2.3" = inr "v1.2.3"
  /\ resolve_tag "/org//proj/./releases/tag/v1.2.3/" = inr "v1.2.3"
  /\ resolve_tag "/org/proj/releases/v1.2.3"
     = inl (ValueError (VPath (mkPath "/" ["org"; "proj"; "releases"; "v1.2.3"]))).
Proof.
  split; [| split].
  - apply (proj1 (proj2 (resolve_tag_shape "/org/proj/releases/tag/v1.2.3"
                           (or_intror (ex_intro _ _ eq_refl))))).
    exists "org", "proj". repeat split.
  - apply (proj1 (resolve_tag_shape "/org//proj/./releases/tag/v1.2.3/"
                    (or_intror (ex_intro _ _ eq_refl)))).
    exists "org", "proj". reflexivity.
  - apply (proj2 (proj2 (resolve_tag_shape "/org/proj/releases/v1.2.3"
                           (or_intror (ex_intro _ _ eq_refl))))).
    intros org repo tag. discriminate.
Defined.

(** C1 as stated fails in its second half: these two paths are not
    [/{org}/{repo}/releases/tag/{tag}] for any segments, one has an empty
    segment, a dot segment and a trailing slash and the other a doubled
    leading slash, and yet the resolver returns a tag for each. *)
Lemma resolve_tag_noncanonical_counterexample :
  (forall tag, ~ has_release_shape "/jdx//mise/./releases/tag/v1.2.3/" tag)
  /\ resolve_tag "/jdx//mise/./releases/tag/v1.2.3/" = inr "v1.2.3"
  /\ (forall tag, ~ has_release_shape "//jdx/mise/releases/tag/v1" tag)
  /\ resolve_tag "//jdx/mise/releases/tag/v1" = inr "v1".
Proof.
  split; [| split; [reflexivity | split; [| reflexivity]]].
  - intros tag H. apply has_release_shape_split in H as (org & repo & H).
    discriminate H.
  - intros tag H. apply has_release_shape_split in H as (org & repo & H).
    discriminate H.
Qed.

(** C2: the resolver matches the parts of the path against five parts, of
    which the fourth and fifth are the markers [releases] and [tag],
    followed by the tag value: it returns the tag exactly when the parts
    are such five followed by it, and on any deviation (a part missing, a
    part too many, another marker) it raises [ValueError] on the path, with
    no fallback. *)
Theorem match_release_tag_five_segments (p : PurePosixPath_t) :
  (forall tag,
      match_release_tag p = inr tag
      <-> exists five, five_segments_with_markers five /\ parts p = five ++ [tag])
  /\ ((exists tag, match_release_tag p = inr tag)
      \/ ((forall five tag, five_segments_with_markers five -> parts p <> five ++ [tag])
          /\ match_release_tag p = inl (ValueError (VPath p)))).
Proof.
  assert (Hiff : forall tag,
            (exists a b c, parts p = [a; b; c; "releases"; "tag"; tag])
            <-> exists five, five_segments_with_markers five /\ parts p = five ++ [tag]).
  { intros tag. split.
    - intros (a & b & c & H). exists [a; b; c; "releases"; "tag"].
      split; [repeat split | exact H].
    - intros (five & (Hlen & H3 & H4) & H).
      destruct five as [| a [| b [| c [| r [| t [| x l]]]]]]; try discriminate Hlen.
      simpl in H3, H4. injection H3 as ->. injection H4 as ->.
      exists a, b, c. exact H. }
  destruct (match_release_tag_spec p)
    as [(a & b & c & tag & Hparts & Hm) | [Hno Hm]].
  - split; [| left; eauto]. intros tag'. rewrite <- Hiff, Hparts, Hm. split.
    + intros [= ->]. eauto.
    + intros (a' & b' & c' & [= _ _ _ ->]). reflexivity.
  - split.
    + intros tag'. rewrite <- Hiff, Hm. split; [discriminate |].
      intros (a' & b' & c' & H). destruct (Hno _ _ _ _ H).
    + right. split; [| exact Hm]. intros five tag Hfive H.
      destruct (proj2 (Hiff tag) (ex_intro _ five (conj Hfive H))) as (a & b & c & H').
      exact (Hno _ _ _ _ H').
Qed.

(** C2 on scenario 2: the five parts are the root, [org], [proj] and the
    two markers, and [v1.2.3] follows them. *)
Lemma match_release_tag_five_segments_witness :
  match_release_tag (PurePosixPath "/org/proj/releases/tag/v1.2.3") = inr "v1.2.3".
Proof.
  apply (proj1 (match_release_tag_five_segments _)).
  exists ["/"; "org"; "proj"; "releases"; "tag"]. repeat split.
Defined.

(** ** Archive Installer *)

Lemma bind_lift_inr {A B} (r : exn + A) (k : A -> M B) a h :
  r = inr a -> bind (lift r) k h = k a h.
Proof. intros ->. reflexivity. Qed.

Lemma bind_urlopen_some {B} w u (k : HTTPResponse -> M B) h r :
  http w h u = Some r -> bind (urlopen w u) k h = k r (h ++ [UrlOpen u]).
Proof. intros H. unfold bind, urlopen. rewrite H. reflexivity. Qed.

Lemma match_system_inr system label :
  match_system system = inr label <-> system = "Linux" /\ label = "linux".
Proof.
  unfold match_system. destruct (String.eqb_spec system "Linux") as [-> | Hne].
  - split; [intros [= <-]; auto | intros [_ ->]; reflexivity].
  - split; [discriminate | intros [H _]; contradiction].
Qed.

Lemma match_machine_inr machine label :
  match_machine machine = inr label
  <-> (machine = "x86_64" /\ label = "x64") \/ (machine = "aarch64" /\ label = "arm64").
Proof.
  unfold match_machine. destruct (String.eqb_spec machine "x86_64") as [-> | H1].
  - split; [intros [= <-]; auto | intros [[_ ->] | [[=] _]]; reflexivity].
  - destruct (String.eqb_spec machine "aarch64") as [-> | H2].
    + split; [intros [= <-]; auto | intros [[[=] _] | [_ ->]]; reflexivity].
    + split; [discriminate | intros [[H _] | [H _]]; contradiction].
Qed.

Lemma requests_app h1 h2 : requests (h1 ++ h2) = requests h1 ++ requests h2.
Proof. apply omap_app. Qed.

Lemma offline_lift {A} (r : exn + A) : offline (lift r).
Proof. intros h. exists []. rewrite app_nil_r. destruct r; split; reflexivity. Qed.

Lemma offline_fs w e :
  match e with UrlOpen _ => False | _ => True end -> offline (fs w e).
Proof.
  intros He h. exists [e]. unfold fs.
  destruct (fs_ok w h e); (split; [reflexivity |]); destruct e; easy.
Qed.

Lemma offline_extractall w r d : offline (extractall w r d).
Proof.
  intros h. exists [ExtractAll d]. unfold extractall.
  destruct (tar_ok w h (body r)); split; reflexivity.
Qed.

Lemma offline_bind {A B} (m : M A) (k : A -> M B) :
  offline m -> (forall a, offline (k a)) -> offline (bind m k).
Proof.
  intros Hm Hk h. unfold bind. destruct (Hm h) as (t1 & H1 & Hq1).
  destruct (m h) as [[e | a] h1]; simpl in H1; subst h1.
  - exists t1. split; [reflexivity | exact Hq1].
  - destruct (Hk a (h ++ t1)) as (t2 & H2 & Hq2). exists (t1 ++ t2).
    rewrite H2, app_assoc, requests_app, Hq1, Hq2. split; reflexivity.
Qed.

Lemma bind_urlopen_requests {B} w u (k : HTTPResponse -> M B) h :
  (forall r, offline (k r)) ->
  exists t, (bind (urlopen w u) k h).2 = h ++ t /\ requests t = [u].
Proof.
  intros Hk. unfold bind, urlopen. destruct (http w h u) as [r |].
  - destruct (Hk r (h ++ [UrlOpen u])) as (t & Ht & Hq). exists ([UrlOpen u] ++ t).
    rewrite Ht, <- app_assoc, requests_app, Hq. split; reflexivity.
  - exists [UrlOpen u]. split; reflexivity.
Qed.

(** C5: on a supported platform, for every resolved tag, the installer
    names the archive [mise-{tag}-{os}-{arch}.tar.gz], where Linux is
    labelled [linux], x86_64 is labelled [x64] and aarch64 is labelled
    [arm64], and its only request after the release lookup is for that
    name under the fixed release-asset base path and the tag. *)
Theorem install_mise_asset_url
    (w : World) (h : list event) (response : HTTPResponse) (tag arch : string) :
  http w h latest_release_url = Some response ->
  resolve_tag (path (url response)) = inr tag ->
  uname_system w = "Linux" ->
  (uname_machine w = "x86_64" /\ arch = "x64")
  \/ (uname_machine w = "aarch64" /\ arch = "arm64") ->
  match_system (uname_system w) = inr "linux"
  /\ match_machine (uname_machine w) = inr arch
  /\ asset_name tag "linux" arch = "mise-" +:+ tag +:+ "-linux-" +:+ arch +:+ ".tar.gz"
  /\ requests (_install_mise w h).2
     = requests h
       ++ [ latest_release_url;
            "https://github.com/jdx/mise/releases/download/"
            +:+ tag +:+ "/" +:+ asset_name tag "linux" arch ].
Proof.
  intros Hhttp Htag Hsys Harch.
  assert (Hs : match_system (uname_system w) = inr "linux")
    by (apply match_system_inr; auto).
  assert (Hm : match_machine (uname_machine w) = inr arch)
    by (apply match_machine_inr; exact Harch).
  split; [exact Hs |]. split; [exact Hm |].
  split; [destruct Harch as [[_ ->] | [_ ->]]; reflexivity |].
  unfold _install_mise. rewrite (bind_urlopen_some _ _ _ _ _ Hhttp).
  rewrite (bind_lift_inr _ _ _ _ Htag), (bind_lift_inr _ _ _ _ Hs),
    (bind_lift_inr _ _ _ _ Hm).
  unfold with_TemporaryDirectory.
  set (h1 := h ++ [UrlOpen latest_release_url]).
  set (tmpdir := mkdtemp w h1).
  match goal with
  | |- context [bind (urlopen w ?u) ?k ?h2] =>
      destruct (bind_urlopen_requests w u k h2) as (t & Ht & Hq)
  end.
  - intros r. unfold mkdir.
    repeat (apply offline_bind;
            [first [apply offline_extractall | apply offline_lift
                   | apply offline_fs; exact I] | intros ?]).
    apply offline_fs. exact I.
  - match type of Ht with (?x).2 = _ => destruct x as [r h'] end.
    simpl in Ht. subst h' h1. simpl.
    rewrite !requests_app, Hq. simpl. rewrite !app_nil_r, <- app_assoc. reflexivity.
Qed.

(** C5 on an x86_64 Linux machine whose redirect resolves to v2025.1.0. *)
Lemma install_mise_asset_url_witness :
  requests (_install_mise (sample_world "Linux" "x86_64" empty_config [] all_succeed) []).2
  = requests []
    ++ [ "https://github.com/jdx/mise/releases/latest";
         "https://github.com/jdx/mise/releases/download/v2025.1.0/"
         +:+ "mise-v2025.1.0-linux-x64.tar.gz" ].
Proof.
  exact (proj2 (proj2 (proj2
    (install_mise_asset_url (sample_world "Linux" "x86_64" empty_config [] all_succeed) []
       (redirect_to "/jdx/mise/releases/tag/v2025.1.0") "v2025.1.0" "x64"
       eq_refl eq_refl eq_refl (or_introl (conj eq_refl eq_refl)))))).
Defined.

(** C3 (as amended): on an unsupported platform the installer fails after
    exactly one network request, the lookup of the latest release, and
    before the archive is requested or any file is touched; when that lookup
    resolves to a tag, the failure is the [ValueError] on the kernel name
    if it is not Linux, and otherwise on the machine name; when the lookup
    fails or does not resolve, the failure is that earlier error. *)
Theorem install_mise_unsupported (w : World) (h : list event) :
  ~ supported (uname_system w) (uname_machine w) ->
  exists e,
    _install_mise w h = (inl e, h ++ [UrlOpen latest_release_url])
    /\ match http w h latest_release_url with
       | None => e = URLError latest_release_url
       | Some response =>
           match resolve_tag (path (url response)) with
           | inl e' => e = e'
           | inr _ =>
               e = ValueError (VStr (if String.eqb (uname_system w) "Linux"
                                     then uname_machine w else uname_system w))
           end
       end.
Proof.
  intros Hun. unfold _install_mise, resolve_tag.
  destruct (http w h latest_release_url) as [response |] eqn:Hhttp.
  2:{ exists (URLError latest_release_url). split; [| reflexivity].
      unfold bind, urlopen. rewrite Hhttp. reflexivity. }
  rewrite (bind_urlopen_some _ _ _ _ _ Hhttp).
  destruct (match_release_tag (PurePosixPath (path (url response))))
    as [e | tag] eqn:Htag.
  { exists e. split; reflexivity. }
  rewrite (bind_lift_inr _ _ tag) by reflexivity.
  unfold match_system at 1.
  destruct (String.eqb_spec (uname_system w) "Linux") as [Hsys | Hsys].
  - cbn [lift]. unfold bind at 1, ret at 1.
    unfold match_machine.
    destruct (String.eqb_spec (uname_machine w) "x86_64") as [Hm | Hm];
      [destruct Hun; split; auto |].
    destruct (String.eqb_spec (uname_machine w) "aarch64") as [Hm' | Hm'];
      [destruct Hun; split; auto |].
    eexists. split; reflexivity.
  - eexists. split; reflexivity.
Qed.

(** C3 on a Darwin machine. *)
Lemma install_mise_unsupported_witness :
  exists e,
    _install_mise (sample_world "Darwin" "arm64" empty_config [] all_succeed) []
    = (inl e, [] ++ [UrlOpen latest_release_url])
    /\ e = ValueError (VStr "Darwin").
Proof.
  apply (install_mise_unsupported
           (sample_world "Darwin" "arm64" empty_config [] all_succeed) []).
  intros [H _]. discriminate H.
Defined.

(** C3 as stated fails: on a Darwin machine the installer has already sent
    the release lookup over the network when it rejects the platform. *)
Lemma install_mise_network_before_platform_counterexample :
  ~ supported "Darwin" "arm64"
  /\ _install_mise (sample_world "Darwin" "arm64" empty_config [] all_succeed) []
     = (inl (ValueError (VStr "Darwin")),
        [UrlOpen "https://github.com/jdx/mise/releases/latest"])
  /\ requests (_install_mise (sample_world "Darwin" "arm64" empty_config [] all_succeed) []).2
     <> [].
Proof.
  split; [intros [H _]; discriminate H |].
  split; [reflexivity | discriminate].
Qed.

(** ** Provisioning Sequencer *)


Lemma getitem_clean_PATH w h :
  getitem (_prepare_clean_env w) "PATH" h
  = (inr (shim_dir w +:+ ":" +:+ local_bin w +:+ ":" +:+ posixpath.defpath), h).
Proof. unfold getitem. rewrite clean_env_PATH. reflexivity. Qed.

Lemma bind_ask {A B} (f : list event -> A) (k : A -> M B) h :
  bind (ask f) k h = k (f h) h.
Proof. reflexivity. Qed.

Lemma bind_assoc {A B C} (m : M A) (k1 : A -> M B) (k2 : B -> M C) h :
  bind (bind m k1) k2 h = bind m (fun a => bind (k1 a) k2) h.
Proof. unfold bind. destruct (m h) as [[e | a] h1]; reflexivity. Qed.

Lemma bind_ret {A B} (a : A) (k : A -> M B) h : bind (ret a) k h = k a h.
Proof. reflexivity. Qed.





Lemma extends_run {A} (m : M A) h r h' : extends m -> m h = (r, h') -> h `prefix_of` h'.
Proof. intros Hm H. specialize (Hm h). rewrite H in Hm. exact Hm. Qed.

Lemma elem_of_prefix (x : event) h h' : x ∈ h -> h `prefix_of` h' -> x ∈ h'.
Proof. intros Hx [k ->]. apply elem_of_app. left. exact Hx. Qed.

Lemma check_call_inr w args env h h' :
  _check_call w args env h = (inr tt, h') -> h' = h ++ [echoed w args; Run args env].
Proof.
  rewrite check_call_unfold. unfold subprocess_run.
  destruct args as [| a args]; [discriminate |].
  destruct (wait w (h ++ [echoed w (a :: args)]) (a :: args) env) as [rc |];
    [| discriminate].
  destruct (rc =? 0); [| discriminate].
  intros [= <-]. rewrite <- app_assoc. reflexivity.
Qed.

(** A loop that completes has completed the body for each element. *)
Lemma for_each_inr_elem {A} (l : list A) (body : A -> M unit) x h h' :
  (forall y, extends (body y)) ->
  for_each l body h = (inr tt, h') ->
  x ∈ l ->
  exists h1 h2, body x h1 = (inr tt, h2) /\ h2 `prefix_of` h'.
Proof.
  intros Hb. revert h. induction l as [| y l IH]; intros h Hrun Hx.
  - apply elem_of_nil in Hx. destruct Hx.
  - simpl in Hrun. apply bind_inv in Hrun as ([] & hy & Hy & Hrest).
    apply elem_of_cons in Hx as [-> | Hx].
    + exists h, hy. split; [exact Hy |].
      apply (extends_run (for_each l body) hy (inr tt)); auto with extends.
    + exact (IH hy Hrest Hx).
Qed.

(** C8: in a full run that completes, every structured tool entry
    [{operand, options}] of the configuration has its install command
    started: [uv tool install], then the options, then the end-of-options
    marker, then the operand. *)
Theorem main_uv_tool_install
    (w : World) (task_arg : option string) (config : Config)
    (h' : list event) (tool : _Argument) :
  _parse_args task_arg = inr MAIN ->
  config_toml w = inr config ->
  main w task_arg [] = (inr tt, h') ->
  IsArgument tool ∈ uv_tool config ->
  Run (["uv"; "tool"; "install"] ++ options tool ++ ["--"; operand tool])
      (_prepare_clean_env w) ∈ h'.
Proof.
  intros Hparse Hcfg Hrun Htool. unfold main in Hrun.
  rewrite (bind_lift_inr _ _ _ _ Hparse) in Hrun. unfold _load_config in Hrun.
  rewrite (bind_lift_inr _ _ _ _ Hcfg) in Hrun.
  cbv zeta in Hrun.
  repeat match type of Hrun with
         | bind _ _ _ = (inr _, _) =>
             let u := fresh "u" in let hi := fresh "hi" in let Hi := fresh "Hi" in
             apply bind_inv in Hrun as (u & hi & Hi & Hrun)
         end.
  repeat match goal with u : unit |- _ => destruct u end.
  match goal with
  | H : for_each (uv_tool config) _ _ = _ |- _ =>
      apply (for_each_inr_elem _ _ (IsArgument tool)) in H as (ha & hb & Hcall & Hpre);
        [| auto with extends | exact Htool]
  end.
  apply check_call_inr in Hcall. simpl in Hcall.
  match goal with
  | H : for_each (docker_image config) _ _ = _ |- _ =>
      apply extends_run in H; [| auto with extends]
  end.
  apply extends_run in Hrun; [| auto with extends].
  eapply elem_of_prefix; [| exact Hrun].
  eapply elem_of_prefix; [| eassumption].
  eapply elem_of_prefix; [| exact Hpre].
  subst hb. apply elem_of_app. right. apply list_elem_of_In. simpl. tauto.
Qed.

(** C8 on scenario 4. *)
Lemma main_uv_tool_install_witness :
  Run ["uv"; "tool"; "install"; "--python"; "3.12"; "--"; "ruff"]
      (_prepare_clean_env
         (sample_world "Linux" "x86_64" ruff_config ["docker"; "mise"] all_succeed))
  ∈ (main (sample_world "Linux" "x86_64" ruff_config ["docker"; "mise"] all_succeed)
       None []).2.
Proof.
  apply (main_uv_tool_install
           (sample_world "Linux" "x86_64" ruff_config ["docker"; "mise"] all_succeed)
           None ruff_config _ (mkArgument "ruff" ["--python"; "3.12"])).
  - reflexivity.
  - reflexivity.
  - vm_compute. reflexivity.
  - apply list_elem_of_In. simpl. tauto.
Defined.

(** ** Witnesses on the sample machine *)

(** C6 on stub commands: [false] exits with status one and the call raises,
    [true] exits with status zero and the call returns. *)
Lemma check_call_fails_iff_nonzero_witness :
  (_check_call (sample_world "Linux" "x86_64" empty_config [] stub_status)
     ["false"] ∅ []).1 = inl (CalledProcessError 1 ["false"])
  /\ (_check_call (sample_world "Linux" "x86_64" empty_config [] stub_status)
        ["true"] ∅ []).1 = inr tt.
Proof.
  split.
  - apply (proj1 (check_call_fails_iff_nonzero
                    (sample_world "Linux" "x86_64" empty_config [] stub_status)
                    ["false"] ∅ [] 1 ltac:(discriminate) eq_refl)).
    discriminate.
  - apply (proj1 (proj2 (check_call_fails_iff_nonzero
                    (sample_world "Linux" "x86_64" empty_config [] stub_status)
                    ["true"] ∅ [] 0 ltac:(discriminate) eq_refl))).
    reflexivity.
Defined.

(** C7 on the sample machine, whose own PATH is [/opt/evil/bin]: a directory
    of the clean PATH comes from one of the three entries. *)
Lemma prepare_clean_env_shape_witness :
  "/home/user/.local/bin"
    ∈ search_dirs (shim_dir (sample_world "Linux" "x86_64" empty_config [] all_succeed))
  \/ "/home/user/.local/bin"
    ∈ search_dirs (local_bin (sample_world "Linux" "x86_64" empty_config [] all_succeed))
  \/ "/home/user/.local/bin" ∈ search_dirs posixpath.defpath.
Proof.
  apply (proj1 (proj2 (proj2 (proj2 (prepare_clean_env_shape
           (sample_world "Linux" "x86_64" empty_config [] all_succeed)))))
           "/home/user/.local/share/mise/shims:/home/user/.local/bin:/bin:/usr/bin").
  - reflexivity.
  - apply list_elem_of_In. simpl. tauto.
Defined.

(** C10 on two machines with the same HOME and different PATH and LANG. *)
Lemma prepare_clean_env_noninterference_witness :
  _prepare_clean_env (sample_world "Linux" "x86_64" empty_config [] all_succeed)
  = _prepare_clean_env
      (set_environ (sample_world "Linux" "x86_64" empty_config [] all_succeed)
         (<["LANG" := "C"]> (<["PATH" := "/usr/games"]> (<["HOME" := "/home/user"]> ∅)))).
Proof.
  apply prepare_clean_env_noninterference. reflexivity.
Defined.

(** * Further properties *)

(** ** Task Dispatcher *)

(** X1: [_parse_args] inverts [_Task_value]: a selector is accepted
    exactly when it is the value of a task, and then that task is returned;
    without a selector the task is [MAIN]; any other selector raises
    [ValueError] on it. *)
Theorem parse_args_round_trip :
  (forall t, _parse_args (Some (_Task_value t)) = inr t)
  /\ _parse_args None = inr MAIN
  /\ (forall s t, _parse_args (Some s) = inr t <-> s = _Task_value t)
  /\ (forall s, (forall t, s <> _Task_value t) ->
                _parse_args (Some s) = inl (ValueError (VStr s))).
Proof.
  assert (Hrt : forall t, _parse_args (Some (_Task_value t)) = inr t)
    by (intros []; reflexivity).
  assert (Hcases : forall s,
            (exists t, s = _Task_value t /\ _parse_args (Some s) = inr t)
            \/ ((forall t, s <> _Task_value t)
                /\ _parse_args (Some s) = inl (ValueError (VStr s)))).
  { intros s. unfold _parse_args. simpl default.
    destruct (String.eqb_spec s (_Task_value MAIN)) as [-> | H1];
      [left; exists MAIN; split; reflexivity |].
    destruct (String.eqb_spec s (_Task_value PREPARE_DOTFILES)) as [-> | H2];
      [left; exists PREPARE_DOTFILES; split; reflexivity |].
    destruct (String.eqb_spec s (_Task_value PREPARE_DOCKER)) as [-> | H3];
      [left; exists PREPARE_DOCKER; split; reflexivity |].
    destruct (String.eqb_spec s (_Task_value INSTALL_MISE)) as [-> | H4];
      [left; exists INSTALL_MISE; split; reflexivity |].
    right. split; [intros []; assumption | reflexivity]. }
  split; [exact Hrt |]. split; [reflexivity |]. split.
  - intros s t. split; [| intros ->; apply Hrt].
    destruct (Hcases s) as [(t' & -> & Ht') | [_ Hs]]; rewrite ?Hs, ?Ht'.
    + intros [= ->]. reflexivity.
    + discriminate.
  - intros s Hs. destruct (Hcases s) as [(t & -> & _) | [_ H]]; [| exact H].
    destruct (Hs t eq_refl).
Qed.

(** X1 on two selectors. *)
Lemma parse_args_round_trip_witness :
  "install_mise" = _Task_value INSTALL_MISE
  /\ _parse_args (Some "install") = inl (ValueError (VStr "install")).
Proof.
  split.
  - apply (proj1 (proj2 (proj2 parse_args_round_trip)) "install_mise" INSTALL_MISE).
    reflexivity.
  - apply (proj2 (proj2 (proj2 parse_args_round_trip)) "install").
    intros []; discriminate.
Defined.

(** ** What an action appends *)

Section Emits.
Variable P : event -> Prop.

Lemma emits_ret {A} (a : A) : emits P (ret a).
Proof. intros h. exists []. rewrite app_nil_r. split; [reflexivity | constructor]. Qed.

Lemma emits_lift {A} (r : exn + A) : emits P (lift r).
Proof.
  intros h. exists []. rewrite app_nil_r.
  destruct r; (split; [reflexivity | constructor]).
Qed.

Lemma emits_getitem d k : emits P (getitem d k).
Proof.
  intros h. exists []. rewrite app_nil_r. unfold getitem.
  destruct (d !! k); (split; [reflexivity | constructor]).
Qed.

Lemma emits_fs w e : P e -> emits P (fs w e).
Proof.
  intros He h. exists [e]. unfold fs.
  destruct (fs_ok w h e); (split; [reflexivity | repeat constructor; exact He]).
Qed.

Lemma emits_urlopen w u : P (UrlOpen u) -> emits P (urlopen w u).
Proof.
  intros He h. exists [UrlOpen u]. unfold urlopen.
  destruct (http w h u); (split; [reflexivity | repeat constructor; exact He]).
Qed.

Lemma emits_extractall w r d : P (ExtractAll d) -> emits P (extractall w r d).
Proof.
  intros He h. exists [ExtractAll d]. unfold extractall.
  destruct (tar_ok w h (body r)); (split; [reflexivity | repeat constructor; exact He]).
Qed.

Lemma emits_ext {A} (m1 m2 : M A) :
  (forall h, m1 h = m2 h) -> emits P m2 -> emits P m1.
Proof. intros Heq Hm h. rewrite Heq. apply Hm. Qed.

Lemma emits_bind {A B} (m : M A) (k : A -> M B) :
  emits P m -> (forall a, emits P (k a)) -> emits P (bind m k).
Proof.
  intros Hm Hk h. unfold bind. destruct (Hm h) as (t1 & H1 & Hp1).
  destruct (m h) as [[e | a] h1]; simpl in H1; subst h1.
  - exists t1. split; [reflexivity | exact Hp1].
  - destruct (Hk a (h ++ t1)) as (t2 & H2 & Hp2). exists (t1 ++ t2).
    rewrite H2, app_assoc. split; [reflexivity | apply Forall_app; auto].
Qed.

Lemma emits_with_TemporaryDirectory {A} w (body : string -> M A) :
  (forall d, P (MkTemp d)) -> (forall d, P (Cleanup d)) ->
  (forall d, emits P (body d)) -> emits P (with_TemporaryDirectory w body).
Proof.
  intros Hmk Hcl Hb h. unfold with_TemporaryDirectory.
  destruct (Hb (mkdtemp w h) (h ++ [MkTemp (mkdtemp w h)])) as (t & Ht & Hp).
  destruct (body (mkdtemp w h) (h ++ [MkTemp (mkdtemp w h)])) as [r h'].
  simpl in Ht. subst h'. exists ([MkTemp (mkdtemp w h)] ++ t ++ [Cleanup (mkdtemp w h)]).
  simpl. rewrite <- !app_assoc. split; [reflexivity |].
  constructor; [apply Hmk |]. apply Forall_app. split; [exact Hp |].
  repeat constructor. apply Hcl.
Qed.
End Emits.

Ltac emits_steps :=
  repeat (apply emits_bind; [| intros ?]);
  first [ apply emits_lift | apply emits_getitem | apply emits_ret
        | apply emits_fs; exact I | apply emits_urlopen; exact I
        | apply emits_extractall; exact I ].

Lemma emits_prepare_dotfiles P w :
  (forall e, is_file_op e -> P e) -> emits P (_prepare_dotfiles w).
Proof.
  intros HP. unfold _prepare_dotfiles, mkdir.
  repeat (apply emits_bind; [| intros ?]);
    first [apply emits_lift | apply emits_fs; apply HP; exact I].
Qed.

Lemma commands_not_run t : Forall not_run t -> commands t = [].
Proof.
  induction 1 as [| e t He _ IH]; [reflexivity |].
  destruct e; try (exact IH). destruct He.
Qed.

Lemma commands_app h1 h2 : commands (h1 ++ h2) = commands h1 ++ commands h2.
Proof. apply omap_app. Qed.

(** X2: a run for one of the three sub-tasks starts no command, whatever
    happens in it; a run for an unknown selector raises [ValueError] on the
    selector without doing anything at all. *)
Theorem main_sub_task_starts_no_command
    (w : World) (task_arg : option string) (h : list event) :
  _parse_args task_arg <> inr MAIN ->
  commands (main w task_arg h).2 = commands h
  /\ (forall e, _parse_args task_arg = inl e -> main w task_arg h = (inl e, h)).
Proof.
  intros Hnot. split.
  - assert (He : emits not_run (main w task_arg)).
    { unfold main. destruct (_parse_args task_arg) as [e | t].
      { intros h0. exists []. rewrite app_nil_r. split; [reflexivity | constructor]. }
      eapply emits_ext; [intros h0; apply (bind_lift_inr _ _ t); reflexivity |].
      destruct t.
      - congruence.
      - apply emits_prepare_dotfiles. intros []; simpl; tauto.
      - unfold _prepare_docker. emits_steps.
      - unfold _install_mise. repeat (apply emits_bind; [| intros ?]);
          try first [apply emits_lift | apply emits_urlopen; exact I].
        apply emits_with_TemporaryDirectory; try (intros; exact I).
        intros d. unfold mkdir. emits_steps. }
    destruct (He h) as (t & -> & Ht).
    rewrite commands_app, (commands_not_run t Ht). apply app_nil_r.
  - intros e He. unfold main. rewrite He. reflexivity.
Qed.

(** X2 on the [install_mise] selector and on an unknown one. *)
Lemma main_sub_task_starts_no_command_witness :
  commands (main (sample_world "Linux" "x86_64" full_config [] all_succeed)
              (Some "install_mise") []).2 = commands []
  /\ main (sample_world "Linux" "x86_64" full_config [] all_succeed) (Some "mise") []
     = (inl (ValueError (VStr "mise")), []).
Proof.
  split.
  - apply (main_sub_task_starts_no_command
             (sample_world "Linux" "x86_64" full_config [] all_succeed)
             (Some "install_mise") []).
    discriminate.
  - apply (main_sub_task_starts_no_command
             (sample_world "Linux" "x86_64" full_config [] all_succeed)
             (Some "mise") []); [discriminate | reflexivity].
Defined.

(** ** The echo of the Command Runner *)

Lemma check_call_trace w args env h :
  args <> [] -> (_check_call w args env h).2 = h ++ [echoed w args; Run args env].
Proof.
  intros Hargs. rewrite check_call_unfold. unfold subprocess_run.
  destruct args as [| a args]; [congruence |].
  destruct (wait w (h ++ [echoed w (a :: args)]) (a :: args) env) as [rc |];
    [destruct (rc =? 0) |]; simpl; rewrite <- app_assoc; reflexivity.
Qed.

(** X3: whatever becomes of the command (exit status zero, another exit
    status, or a command that cannot be started), [_check_call] with a
    non-empty argument list first prints the echo line and then starts the
    command exactly once; with an empty argument list it prints the echo
    line, starts nothing and raises [IndexError]. *)
Theorem check_call_echoes_then_runs
    (w : World) (args : list string) (env : gmap string string) (h : list event) :
  (args <> [] -> (_check_call w args env h).2 = h ++ [echoed w args; Run args env])
  /\ (args = [] -> _check_call w args env h = (inl IndexError, h ++ [echoed w []])).
Proof.
  split; [apply check_call_trace |]. intros ->. reflexivity.
Qed.

(** X3 on a failing stub command. *)
Lemma check_call_echoes_then_runs_witness :
  (_check_call (sample_world "Linux" "x86_64" empty_config [] stub_status)
     ["false"] ∅ []).2
  = [] ++ [echoed (sample_world "Linux" "x86_64" empty_config [] stub_status) ["false"];
           Run ["false"] ∅].
Proof.
  apply (proj1 (check_call_echoes_then_runs
                  (sample_world "Linux" "x86_64" empty_config [] stub_status)
                  ["false"] ∅ [])).
  discriminate.
Defined.

(** ** Triples *)

Lemma triple_ret {A} (P : list event -> Prop) (a : A) Q E :
  (forall h, P h -> Q a h) -> triple P (ret a) Q E.
Proof. intros H h Hh. apply H, Hh. Qed.

Lemma triple_bind {A B} P (m : M A) Q' (k : A -> M B) Q E :
  triple P m Q' E -> (forall a, triple (Q' a) (k a) Q E) -> triple P (bind m k) Q E.
Proof.
  intros Hm Hk h Hh. unfold bind. specialize (Hm h Hh).
  destruct (m h) as [[e | a] h1]; [exact Hm |]. apply (Hk a h1 Hm).
Qed.

Lemma triple_ext {A} P (m1 m2 : M A) Q E :
  (forall h, m1 h = m2 h) -> triple P m2 Q E -> triple P m1 Q E.
Proof. intros Heq Hm h Hh. rewrite Heq. apply Hm, Hh. Qed.

Lemma triple_when P b m E :
  triple P m (fun _ => P) E -> triple P (when b m) (fun _ => P) E.
Proof. intros Hm. destruct b; [exact Hm | apply triple_ret; auto]. Qed.

Lemma triple_for_each {A} P (l : list A) body E :
  (forall x, triple P (body x) (fun _ => P) E) ->
  triple P (for_each l body) (fun _ => P) E.
Proof.
  intros Hb. induction l as [| x l IH]; simpl.
  - apply triple_ret. auto.
  - eapply triple_bind; [apply Hb | intros ?; exact IH].
Qed.

Lemma triple_ask {A} P (f : list event -> A) E :
  triple P (ask f) (fun _ => P) E.
Proof. intros h Hh. exact Hh. Qed.

Lemma triple_getitem_PATH P w E :
  triple P (getitem (_prepare_clean_env w) "PATH") (fun _ => P) E.
Proof. intros h Hh. rewrite getitem_clean_PATH. exact Hh. Qed.

(** The full run keeps every invariant of the trace that each command
    keeps, and fails only the way a command or the configuration fails. *)
Section Sequencer.
Variable w : World.
Variable P : list event -> Prop.
Variable E : exn -> list event -> Prop.
Hypothesis call :
  forall args, args <> [] ->
    triple P (_check_call w args (_prepare_clean_env w)) (fun _ => P) E.
Hypothesis config_error : forall e h, config_toml w = inl e -> P h -> E e h.

Lemma main_triple task_arg :
  _parse_args task_arg = inr MAIN -> triple P (main w task_arg) (fun _ => P) E.
Proof.
  intros Hparse. unfold main.
  eapply triple_ext; [intros h; apply (bind_lift_inr _ _ MAIN); exact Hparse |].
  cbv zeta. unfold _load_config.
  eapply triple_bind with (Q' := fun _ => P).
  { intros h Hh. destruct (config_toml w) as [e | c] eqn:Hc; simpl;
      [apply (config_error e h eq_refl Hh) | exact Hh]. }
  intros config.
  repeat (eapply triple_bind with (Q' := fun _ => P);
          [ first [ apply call; discriminate
                  | apply triple_getitem_PATH
                  | apply triple_ask
                  | apply triple_when; apply call; discriminate
                  | apply triple_for_each; intros ?; apply call; discriminate
                  | idtac ]
          | intros ? ]).
  all: try (apply triple_for_each; intros ?; apply call; discriminate).
  match goal with |- triple _ (if ?b then _ else _) _ _ => destruct b end.
  - apply call. discriminate.
  - eapply triple_bind with (Q' := fun _ => P); [| intros _];
      apply call; discriminate.
Qed.
End Sequencer.

(** ** The trace of a full run *)

Lemma rendered_app w l1 l2 : rendered w (l1 ++ l2) = rendered w l1 ++ rendered w l2.
Proof. unfold rendered. apply flat_map_app. Qed.

Lemma commands_rendered w l : commands (rendered w l) = l.
Proof. induction l as [| a l IH]; [reflexivity |]. simpl. f_equal. exact IH. Qed.

(** X4: in every full run, complete or not, each command is echoed
    immediately before it is started and is started under the clean
    environment, and the run itself does nothing else: its trace is the
    rendering of the commands it started. *)
Theorem main_trace_is_rendered (w : World) (task_arg : option string) :
  _parse_args task_arg = inr MAIN ->
  (main w task_arg []).2 = rendered w (commands (main w task_arg []).2).
Proof.
  intros Hparse.
  pose (P := fun h : list event => h = rendered w (commands h)).
  assert (Hcall : forall args, args <> [] ->
            triple P (_check_call w args (_prepare_clean_env w))
              (fun _ => P) (fun _ => P)).
  { intros args Hargs h Hh.
    pose proof (check_call_trace w args (_prepare_clean_env w) h Hargs) as Htr.
    assert (Hp : P (h ++ [echoed w args; Run args (_prepare_clean_env w)])).
    { unfold P in *. rewrite commands_app, rendered_app. simpl.
      rewrite <- Hh. reflexivity. }
    destruct (_check_call w args (_prepare_clean_env w) h) as [[e | []] h'];
      simpl in Htr; subst h'; exact Hp. }
  pose proof (main_triple w P (fun _ => P) Hcall (fun _ h _ Hh => Hh) task_arg Hparse
                [] eq_refl) as H.
  destruct (main w task_arg []) as [[e | []] h']; exact H.
Qed.

(** X4 on a machine where the upgrade fails. *)
Lemma main_trace_is_rendered_witness :
  (main (sample_world "Linux" "x86_64" full_config [] upgrade_fails) None []).2
  = rendered (sample_world "Linux" "x86_64" full_config [] upgrade_fails)
      (commands
         (main (sample_world "Linux" "x86_64" full_config [] upgrade_fails) None []).2).
Proof. apply main_trace_is_rendered. reflexivity. Defined.

(** ** Failure of a command *)

Lemma exits_from_app w pre h1 h2 :
  exits_from w pre (h1 ++ h2)
  = exits_from w pre h1 ++ exits_from w (pre ++ h1) h2.
Proof.
  revert pre. induction h1 as [| e h1 IH]; intros pre; simpl.
  - rewrite app_nil_r. reflexivity.
  - destruct e; simpl; rewrite IH, <- app_assoc; reflexivity.
Qed.

Lemma exits_snoc_run w h args env :
  exits w (h ++ [Run args env]) = exits w h ++ [(args, wait w h args env)].
Proof. unfold exits. rewrite exits_from_app. reflexivity. Qed.

Lemma exits_snoc_print w h line : exits w (h ++ [Print line]) = exits w h.
Proof. unfold exits. rewrite exits_from_app. simpl. apply app_nil_r. Qed.

Lemma exits_removelast_snoc w h args env :
  removelast (exits w (h ++ [Run args env])) = exits w h.
Proof. rewrite exits_snoc_run. apply removelast_last. Qed.

(** X5: with a configuration that has its ten lists, a full run starts a
    command only when every command it started before exited with status
    zero.  In every run, every command but the last one started exited
    with status zero; if the run returns, the last one did too; and if the
    run raises [CalledProcessError], the error carries the argument list
    and the exit status, which is not zero, of the command whose start is
    the last event of the trace. *)
Theorem main_stops_at_first_failure
    (w : World) (task_arg : option string) (config : Config) :
  _parse_args task_arg = inr MAIN ->
  config_toml w = inr config ->
  Forall exited_zero (removelast (exits w (main w task_arg []).2))
  /\ ((main w task_arg []).1 = inr tt ->
      Forall exited_zero (exits w (main w task_arg []).2))
  /\ (forall returncode cmd,
        (main w task_arg []).1 = inl (CalledProcessError returncode cmd) ->
        returncode <> 0
        /\ exists h0,
             (main w task_arg []).2 = h0 ++ [Run cmd (_prepare_clean_env w)]
             /\ wait w h0 cmd (_prepare_clean_env w) = Some returncode
             /\ Forall exited_zero (exits w h0)).
Proof.
  intros Hparse Hcfg.
  pose (P := fun h : list event => Forall exited_zero (exits w h)).
  pose (E := fun (e : exn) (h : list event) =>
              exists h0 args,
                h = h0 ++ [Run args (_prepare_clean_env w)]
                /\ P h0
                /\ match wait w h0 args (_prepare_clean_env w) with
                   | Some returncode =>
                       returncode <> 0 /\ e = CalledProcessError returncode args
                   | None => e = OSError "exec"
                   end).
  assert (Hcall : forall args, args <> [] ->
            triple P (_check_call w args (_prepare_clean_env w)) (fun _ => P) E).
  { intros args Hargs h Hh. rewrite check_call_unfold. unfold subprocess_run.
    destruct args as [| a args]; [congruence |].
    assert (Hh1 : P (h ++ [echoed w (a :: args)]))
      by (unfold P; unfold echoed; rewrite exits_snoc_print; exact Hh).
    destruct (wait w (h ++ [echoed w (a :: args)]) (a :: args) (_prepare_clean_env w))
      as [rc |] eqn:Hw.
    - destruct (Z.eqb_spec rc 0) as [-> | Hrc].
      + unfold P. rewrite exits_snoc_run, Hw. apply Forall_app. split; [exact Hh1 |].
        repeat constructor.
      + exists (h ++ [echoed w (a :: args)]), (a :: args). rewrite Hw.
        repeat split; [exact Hh1 | exact Hrc].
    - exists (h ++ [echoed w (a :: args)]), (a :: args). rewrite Hw.
      repeat split. exact Hh1. }
  assert (Hconf : forall e h, config_toml w = inl e -> P h -> E e h)
    by (intros e h He; congruence).
  pose proof (main_triple w P E Hcall Hconf task_arg Hparse [] ltac:(constructor)) as H.
  destruct (main w task_arg []) as [[e | []] h']; simpl.
  - destruct H as (h0 & args & -> & Hh0 & Hw). split; [| split].
    + rewrite exits_removelast_snoc. exact Hh0.
    + discriminate.
    + intros rc cmd [= ->].
      destruct (wait w h0 args (_prepare_clean_env w)) as [rc' |] eqn:Hwait;
        [| discriminate Hw].
      destruct Hw as [Hrc [= -> ->]]. split; [exact Hrc |].
      exists h0. repeat split; assumption.
  - split; [| split].
    + unfold P in H. clear -H. induction H as [| x l Hx Hl IH]; [constructor |].
      destruct l as [| y l]; [constructor |].
      change (removelast (x :: y :: l)) with (x :: removelast (y :: l)).
      constructor; assumption.
    + intros _. exact H.
    + discriminate.
Qed.

(** X5 on a machine where the upgrade exits with status 100. *)
Lemma main_stops_at_first_failure_witness :
  100 <> 0
  /\ exists h0,
       (main (sample_world "Linux" "x86_64" full_config [] upgrade_fails) None []).2
       = h0 ++ [Run ["sudo"; "apt-get"; "-y"; "dist-upgrade"]
                  (_prepare_clean_env
                     (sample_world "Linux" "x86_64" full_config [] upgrade_fails))]
       /\ wait (sample_world "Linux" "x86_64" full_config [] upgrade_fails) h0
            ["sudo"; "apt-get"; "-y"; "dist-upgrade"]
            (_prepare_clean_env
               (sample_world "Linux" "x86_64" full_config [] upgrade_fails))
          = Some 100
       /\ Forall exited_zero
            (exits (sample_world "Linux" "x86_64" full_config [] upgrade_fails) h0).
Proof.
  apply (proj2 (proj2 (main_stops_at_first_failure
                         (sample_world "Linux" "x86_64" full_config [] upgrade_fails)
                         None full_config eq_refl eq_refl))).
  vm_compute. reflexivity.
Defined.

(** ** The commands of a run without failure *)

Section Plan.
Variable w : World.
Hypothesis all_zero : forall h args env, wait w h args env = Some 0.









End Plan.




(** ** The installer beyond the platform check *)

(** X7: the installer sends the release lookup and at most one more
    request: the archive, and only when the lookup was answered, its
    redirect resolved to a tag and the platform is supported; on every
    other path the lookup is its only request. *)
Theorem install_mise_requests (w : World) (h : list event) :
  requests (_install_mise w h).2
  = requests h
    ++ latest_release_url
    :: match http w h latest_release_url with
       | Some response =>
           match resolve_tag (path (url response)),
                 match_system (uname_system w), match_machine (uname_machine w) with
           | inr tag, inr system, inr machine =>
               [tarball_url tag (asset_name tag system machine)]
           | _, _, _ => []
           end
       | None => []
       end.
Proof.
  unfold _install_mise, resolve_tag.
  destruct (http w h latest_release_url) as [response |] eqn:Hhttp.
  2:{ unfold bind, urlopen. rewrite Hhttp. simpl. apply requests_app. }
  rewrite (bind_urlopen_some _ _ _ _ _ Hhttp).
  destruct (match_release_tag (PurePosixPath (path (url response)))) as [e | tag];
    [simpl; apply requests_app |].
  destruct (match_system (uname_system w)) as [e | system];
    [simpl; apply requests_app |].
  destruct (match_machine (uname_machine w)) as [e | machine];
    [simpl; apply requests_app |].
  cbn [lift]. rewrite !bind_ret. unfold with_TemporaryDirectory.
  match goal with
  | |- context [bind (urlopen w ?u) ?k ?h2] =>
      destruct (bind_urlopen_requests w u k h2) as (t & Ht & Hq)
  end.
  - intros r. unfold mkdir.
    repeat (apply offline_bind;
            [first [apply offline_extractall | apply offline_lift
                   | apply offline_fs; exact I] | intros ?]).
    apply offline_fs. exact I.
  - match type of Ht with (?x).2 = _ => destruct x as [r h'] end.
    simpl in Ht. subst h'. simpl.
    rewrite !requests_app, Hq. simpl. rewrite !app_nil_r, <- app_assoc. reflexivity.
Qed.

(** X8: either the installer stops right after the release lookup, or it
    creates its temporary directory right after the lookup and, on every
    path from there (a failed download, a failed extraction, a failed copy,
    success), the removal of that directory is the last thing it does; no
    temporary directory is created or removed in between. *)
Theorem install_mise_removes_tmpdir (w : World) (h : list event) :
  (_install_mise w h).2 = h ++ [UrlOpen latest_release_url]
  \/ exists mid,
       (_install_mise w h).2
       = h ++ [UrlOpen latest_release_url;
               MkTemp (mkdtemp w (h ++ [UrlOpen latest_release_url]))]
           ++ mid ++ [Cleanup (mkdtemp w (h ++ [UrlOpen latest_release_url]))]
       /\ Forall not_tmp mid.
Proof.
  unfold _install_mise.
  destruct (http w h latest_release_url) as [response |] eqn:Hhttp.
  2:{ left. unfold bind, urlopen. rewrite Hhttp. reflexivity. }
  rewrite (bind_urlopen_some _ _ _ _ _ Hhttp).
  destruct (match_release_tag (PurePosixPath (path (url response)))) as [e | tag];
    [left; reflexivity |].
  destruct (match_system (uname_system w)) as [e | system]; [left; reflexivity |].
  destruct (match_machine (uname_machine w)) as [e | machine]; [left; reflexivity |].
  right. cbn [lift]. rewrite !bind_ret. unfold with_TemporaryDirectory.
  set (h1 := h ++ [UrlOpen latest_release_url]).
  set (d := mkdtemp w h1).
  match goal with
  | |- context [bind ?m ?k (h1 ++ [MkTemp d])] =>
      assert (He : emits not_tmp (bind m k))
  end.
  { unfold mkdir. emits_steps. }
  destruct (He (h1 ++ [MkTemp d])) as (mid & Hmid & Hp).
  match type of Hmid with (?x).2 = _ => destruct x as [r h'] end.
  simpl in Hmid. subst h'. exists mid. split; [| exact Hp].
  subst h1. simpl. rewrite <- !app_assoc. reflexivity.
Qed.

(** *** Inversion of a return *)

Lemma lift_inv {A} (r : exn + A) h a h' :
  lift r h = (inr a, h') -> r = inr a /\ h' = h.
Proof. destruct r as [e | a0]; [discriminate |]. intros [= -> ->]. auto. Qed.

Lemma urlopen_inv w u h r h' :
  urlopen w u h = (inr r, h') -> http w h u = Some r /\ h' = h ++ [UrlOpen u].
Proof.
  unfold urlopen. destruct (http w h u) as [r0 |]; [| discriminate].
  intros [= -> <-]. auto.
Qed.

Lemma fs_inv w e h u h' : fs w e h = (inr u, h') -> h' = h ++ [e].
Proof. unfold fs. destruct (fs_ok w h e); [| discriminate]. intros [= _ <-]. reflexivity. Qed.

Lemma extractall_inv w r d h u h' :
  extractall w r d h = (inr u, h') -> h' = h ++ [ExtractAll d].
Proof.
  unfold extractall. destruct (tar_ok w h (body r)); [| discriminate].
  intros [= _ <-]. reflexivity.
Qed.

Lemma getitem_inv d k h v h' :
  getitem d k h = (inr v, h') -> d !! k = Some v /\ h' = h.
Proof.
  unfold getitem. destruct (d !! k) as [v0 |]; [| discriminate].
  intros [= -> ->]. auto.
Qed.

Lemma with_TemporaryDirectory_inv {A} w (body : string -> M A) h a h' :
  with_TemporaryDirectory w body h = (inr a, h') ->
  exists h1,
    body (mkdtemp w h) (h ++ [MkTemp (mkdtemp w h)]) = (inr a, h1)
    /\ h' = h1 ++ [Cleanup (mkdtemp w h)].
Proof.
  unfold with_TemporaryDirectory.
  destruct (body (mkdtemp w h) (h ++ [MkTemp (mkdtemp w h)])) as [r h1].
  intros [= -> <-]. exists h1. auto.
Qed.

(** Destructs a returned sequence into its returned steps. *)
Ltac invert_run H :=
  repeat match type of H with
         | bind _ _ _ = (inr _, _) =>
             let a := fresh "a" in let hi := fresh "hi" in let Hi := fresh "Hi" in
             apply bind_inv in H as (a & hi & Hi & H)
         end.

(** X9: when the installer returns, it has done exactly this, in order:
    looked up the release, created the temporary directory, requested the
    archive, extracted it there, created [.local/bin] under the home
    directory and copied [mise/bin/mise] from the temporary directory to
    [.local/bin/mise], created [.local/share/man/man1] and copied
    [mise/man/man1/mise.1] to it, and removed the temporary directory. *)
Theorem install_mise_return (w : World) (h h' : list event) :
  _install_mise w h = (inr tt, h') ->
  exists response tag system machine home,
    http w h latest_release_url = Some response
    /\ resolve_tag (path (url response)) = inr tag
    /\ match_system (uname_system w) = inr system
    /\ match_machine (uname_machine w) = inr machine
    /\ Path_home w = inr home
    /\ let tmpdir := mkdtemp w (h ++ [UrlOpen latest_release_url]) in
       let under_home names := fspath (mkPath (root home) (tail home ++ names)) in
       let under_tmpdir names :=
         fspath (mkPath (root (PurePosixPath tmpdir))
                   (tail (PurePosixPath tmpdir) ++ names)) in
       h' = h ++ [ UrlOpen latest_release_url;
                   MkTemp tmpdir;
                   UrlOpen (tarball_url tag (asset_name tag system machine));
                   ExtractAll tmpdir;
                   Mkdir (under_home [".local"; "bin"]);
                   Copy2 (under_tmpdir ["mise"; "bin"; "mise"])
                         (under_home [".local"; "bin"; "mise"]);
                   Mkdir (under_home [".local"; "share"; "man"; "man1"]);
                   Copy2 (under_tmpdir ["mise"; "man"; "man1"; "mise.1"])
                         (under_home [".local"; "share"; "man"; "man1"; "mise.1"]);
                   Cleanup tmpdir ].
Proof.
  intros Hrun. unfold _install_mise in Hrun.
  apply bind_inv in Hrun as (response & h1 & Hopen & Hrun).
  apply urlopen_inv in Hopen as [Hhttp ->].
  apply bind_inv in Hrun as (tag & h2 & Htag & Hrun). apply lift_inv in Htag as [Htag ->].
  apply bind_inv in Hrun as (system & h3 & Hsys & Hrun). apply lift_inv in Hsys as [Hsys ->].
  apply bind_inv in Hrun as (machine & h4 & Hm & Hrun). apply lift_inv in Hm as [Hm ->].
  apply with_TemporaryDirectory_inv in Hrun as (h5 & Hbody & ->).
  apply bind_inv in Hbody as (archive & h6 & Hopen & Hbody).
  apply urlopen_inv in Hopen as [_ ->].
  apply bind_inv in Hbody as ([] & h7 & Hx & Hbody). apply extractall_inv in Hx as ->.
  apply bind_inv in Hbody as (home & h8 & Hhome & Hbody). apply lift_inv in Hhome as [Hhome ->].
  apply bind_inv in Hbody as ([] & h9 & Hx & Hbody). apply fs_inv in Hx as ->.
  apply bind_inv in Hbody as ([] & h10 & Hx & Hbody). apply fs_inv in Hx as ->.
  apply bind_inv in Hbody as (home' & h11 & Hhome' & Hbody).
  apply lift_inv in Hhome' as [Hhome' ->].
  assert (home' = home) as -> by congruence.
  apply bind_inv in Hbody as ([] & h12 & Hx & Hbody). apply fs_inv in Hx as ->.
  apply fs_inv in Hbody as ->.
  exists response, tag, system, machine, home.
  repeat (split; [assumption |]).
  cbv zeta. unfold parent, joinpath. simpl.
  rewrite !removelast_app by discriminate. simpl.
  rewrite <- !app_assoc. reflexivity.
Qed.

(** X9 on the sample machine. *)
Lemma install_mise_return_witness :
  exists response tag system machine home,
    http (sample_world "Linux" "aarch64" empty_config [] all_succeed) []
      latest_release_url = Some response
    /\ resolve_tag (path (url response)) = inr tag
    /\ match_system "Linux" = inr system
    /\ match_machine "aarch64" = inr machine
    /\ Path_home (sample_world "Linux" "aarch64" empty_config [] all_succeed) = inr home
    /\ (_install_mise (sample_world "Linux" "aarch64" empty_config [] all_succeed) []).2
       = [] ++ [ UrlOpen latest_release_url;
                 MkTemp "/tmp/tmpdir";
                 UrlOpen (tarball_url tag (asset_name tag system machine));
                 ExtractAll "/tmp/tmpdir";
                 Mkdir (fspath (mkPath (root home) (tail home ++ [".local"; "bin"])));
                 Copy2 "/tmp/tmpdir/mise/bin/mise"
                   (fspath (mkPath (root home) (tail home ++ [".local"; "bin"; "mise"])));
                 Mkdir (fspath (mkPath (root home)
                                  (tail home ++ [".local"; "share"; "man"; "man1"])));
                 Copy2 "/tmp/tmpdir/mise/man/man1/mise.1"
                   (fspath (mkPath (root home)
                              (tail home ++ [".local"; "share"; "man"; "man1"; "mise.1"])));
                 Cleanup "/tmp/tmpdir" ].
Proof.
  apply (install_mise_return
           (sample_world "Linux" "aarch64" empty_config [] all_succeed) []).
  vm_compute. reflexivity.
Defined.

(** ** Docker repository preparation *)

(** X10: when the os-release data has [ID] but no [VERSION_CODENAME],
    [_prepare_docker] raises [KeyError] on [VERSION_CODENAME] only after
    the signing key has been downloaded and written to the keyring file;
    the source list is not written. *)
Theorem prepare_docker_missing_codename
    (w : World) (h : list event) (release : gmap string string)
    (ID : string) (response : HTTPResponse) :
  os_release w = inr release ->
  release !! "ID" = Some ID ->
  release !! "VERSION_CODENAME" = None ->
  http w h ("https://download.docker.com/linux/" +:+ ID +:+ "/gpg") = Some response ->
  fs_ok w (h ++ [UrlOpen ("https://download.docker.com/linux/" +:+ ID +:+ "/gpg")])
    (WriteFile "/etc/apt/keyrings/docker.asc" (body response)) = true ->
  _prepare_docker w h
  = (inl (KeyError "VERSION_CODENAME"),
     h ++ [ UrlOpen ("https://download.docker.com/linux/" +:+ ID +:+ "/gpg");
            WriteFile "/etc/apt/keyrings/docker.asc" (body response) ]).
Proof.
  intros Hrel HID Hcode Hhttp Hfs. unfold _prepare_docker.
  rewrite (bind_lift_inr _ _ _ _ Hrel). cbv zeta.
  unfold bind at 1, getitem at 1. rewrite HID. unfold ret at 1.
  rewrite (bind_urlopen_some _ _ _ _ _ Hhttp).
  unfold bind at 1, fs at 1.
  change (fspath (PurePosixPath "/etc/apt/keyrings/docker.asc"))
    with "/etc/apt/keyrings/docker.asc".
  rewrite Hfs.
  unfold bind at 1, getitem at 1. rewrite HID. unfold ret at 1.
  unfold bind at 1, getitem at 1. rewrite Hcode. unfold raise.
  rewrite <- app_assoc. reflexivity.
Qed.

(** X10 on os-release data with [ID] alone. *)
Lemma prepare_docker_missing_codename_witness :
  _prepare_docker (ubuntu_world (<["ID" := "ubuntu"]> ∅)) []
  = (inl (KeyError "VERSION_CODENAME"),
     [] ++ [ UrlOpen "https://download.docker.com/linux/ubuntu/gpg";
             WriteFile "/etc/apt/keyrings/docker.asc" "" ]).
Proof.
  apply (prepare_docker_missing_codename
           (ubuntu_world (<["ID" := "ubuntu"]> ∅)) []
           (<["ID" := "ubuntu"]> ∅) "ubuntu"
           (redirect_to "/jdx/mise/releases/tag/v2025.1.0"));
    reflexivity.
Defined.

(** X11: when [_prepare_docker] returns, it has requested the signing key
    of the distribution named by [ID], written it to the keyring file, and
    then written the source list, whose [Signed-By] field names that same
    keyring file and whose suite is [VERSION_CODENAME]. *)
Theorem prepare_docker_return (w : World) (h h' : list event) :
  _prepare_docker w h = (inr tt, h') ->
  exists release ID VERSION_CODENAME response,
    os_release w = inr release
    /\ release !! "ID" = Some ID
    /\ release !! "VERSION_CODENAME" = Some VERSION_CODENAME
    /\ http w h ("https://download.docker.com/linux/" +:+ ID +:+ "/gpg") = Some response
    /\ h' = h ++ [ UrlOpen ("https://download.docker.com/linux/" +:+ ID +:+ "/gpg");
                   WriteFile "/etc/apt/keyrings/docker.asc" (body response);
                   WriteFile "/etc/apt/sources.list.d/docker.sources"
                     ("Types: deb" +:+ newline
                      +:+ "URIs: https://download.docker.com/linux/" +:+ ID +:+ newline
                      +:+ "Suites: " +:+ VERSION_CODENAME +:+ newline
                      +:+ "Components: stable" +:+ newline
                      +:+ "Signed-By: /etc/apt/keyrings/docker.asc" +:+ newline) ].
Proof.
  intros Hrun. unfold _prepare_docker in Hrun.
  apply bind_inv in Hrun as (release & h1 & Hrel & Hrun). apply lift_inv in Hrel as [Hrel ->].
  cbv zeta in Hrun.
  apply bind_inv in Hrun as (ID & h2 & HID & Hrun). apply getitem_inv in HID as [HID ->].
  apply bind_inv in Hrun as (response & h3 & Hopen & Hrun).
  apply urlopen_inv in Hopen as [Hhttp ->].
  apply bind_inv in Hrun as ([] & h4 & Hx & Hrun). apply fs_inv in Hx as ->.
  apply bind_inv in Hrun as (ID' & h5 & HID' & Hrun). apply getitem_inv in HID' as [HID' ->].
  assert (ID' = ID) as -> by congruence.
  apply bind_inv in Hrun as (codename & h6 & Hcode & Hrun).
  apply getitem_inv in Hcode as [Hcode ->].
  apply fs_inv in Hrun as ->.
  exists release, ID, codename, response. repeat (split; [assumption |]).
  rewrite <- !app_assoc. reflexivity.
Qed.

(** X11 on an Ubuntu noble host. *)
Lemma prepare_docker_return_witness :
  exists release ID VERSION_CODENAME response,
    os_release (ubuntu_world (<["VERSION_CODENAME" := "noble"]> (<["ID" := "ubuntu"]> ∅)))
    = inr release
    /\ release !! "ID" = Some ID
    /\ release !! "VERSION_CODENAME" = Some VERSION_CODENAME
    /\ http (ubuntu_world (<["VERSION_CODENAME" := "noble"]> (<["ID" := "ubuntu"]> ∅))) []
         ("https://download.docker.com/linux/" +:+ ID +:+ "/gpg") = Some response
    /\ (_prepare_docker
          (ubuntu_world (<["VERSION_CODENAME" := "noble"]> (<["ID" := "ubuntu"]> ∅))) []).2
       = [] ++ [ UrlOpen ("https://download.docker.com/linux/" +:+ ID +:+ "/gpg");
                 WriteFile "/etc/apt/keyrings/docker.asc" (body response);
                 WriteFile "/etc/apt/sources.list.d/docker.sources"
                   ("Types: deb" +:+ newline
                    +:+ "URIs: https://download.docker.com/linux/" +:+ ID +:+ newline
                    +:+ "Suites: " +:+ VERSION_CODENAME +:+ newline
                    +:+ "Components: stable" +:+ newline
                    +:+ "Signed-By: /etc/apt/keyrings/docker.asc" +:+ newline) ].
Proof.
  apply (prepare_docker_return
           (ubuntu_world (<["VERSION_CODENAME" := "noble"]> (<["ID" := "ubuntu"]> ∅))) []).
  vm_compute. reflexivity.
Defined.

(** ** Dotfiles preparation *)

(** X12: when the home directory cannot be determined, [_prepare_dotfiles]
    raises before it touches anything.  When it returns, it has created
    the four directories under the home directory, then copied [/etc/skel]
    into the home directory, and only then copied into it the [dotfiles]
    directory that lies beside the script. *)
Theorem prepare_dotfiles_return (w : World) (h : list event) :
  (forall e, Path_home w = inl e -> _prepare_dotfiles w h = (inl e, h))
  /\ (forall h',
        _prepare_dotfiles w h = (inr tt, h') ->
        exists home,
          Path_home w = inr home
          /\ let under_home names := fspath (mkPath (root home) (tail home ++ names)) in
             let script := PurePosixPath (__file__ w) in
             h' = h ++ [ Mkdir (under_home [".bashrc.d"]);
                         Mkdir (under_home [".config"]);
                         Mkdir (under_home [".local"; "bin"]);
                         Mkdir (under_home [".local"; "share"; "bash-completion";
                                            "completions"]);
                         CopyTree "/etc/skel" (fspath home);
                         CopyTree (fspath (mkPath (root script)
                                             (removelast (tail script) ++ ["dotfiles"])))
                                  (fspath home) ]).
Proof.
  split.
  - intros e He. unfold _prepare_dotfiles. rewrite He. reflexivity.
  - intros h' Hrun. unfold _prepare_dotfiles in Hrun.
    apply bind_inv in Hrun as (home & h1 & Hhome & Hrun).
    apply lift_inv in Hhome as [Hhome ->].
    cbv zeta in Hrun. invert_run Hrun.
    repeat match goal with
           | H : mkdir _ _ _ = (inr _, _) |- _ => apply fs_inv in H; subst
           | H : fs _ _ _ = (inr _, _) |- _ => apply fs_inv in H; subst
           | H : lift _ _ = (inr _, _) |- _ => apply lift_inv in H as [H ?]; subst
           end.
    exists home. split; [exact Hhome |]. cbv zeta.
    match goal with
    | H : with_name _ _ = inr ?d |- _ =>
        unfold with_name in H;
        destruct (tail (PurePosixPath (__file__ w))) as [| s t] eqn:Ht;
          [discriminate H | injection H as <-]
    end.
    unfold joinpath.
    repeat match goal with
           | |- context [PurePosixPath (String ?c ?s)] =>
               let v := eval vm_compute in (PurePosixPath (String c s)) in
               change (PurePosixPath (String c s)) with v
           end.
    simpl. rewrite <- ?app_assoc. reflexivity.
Qed.

(** X12 on a machine without a home directory and on the sample machine. *)
Lemma prepare_dotfiles_return_witness :
  _prepare_dotfiles homeless_world [] = (inl RuntimeError, [])
  /\ exists home,
       Path_home (sample_world "Linux" "x86_64" empty_config [] all_succeed) = inr home
       /\ (_prepare_dotfiles (sample_world "Linux" "x86_64" empty_config [] all_succeed)
             []).2
          = [] ++ [ Mkdir (fspath (mkPath (root home) (tail home ++ [".bashrc.d"])));
                    Mkdir (fspath (mkPath (root home) (tail home ++ [".config"])));
                    Mkdir (fspath (mkPath (root home) (tail home ++ [".local"; "bin"])));
                    Mkdir (fspath (mkPath (root home)
                                     (tail home ++ [".local"; "share"; "bash-completion";
                                                    "completions"])));
                    CopyTree "/etc/skel" (fspath home);
                    CopyTree "/opt/setup/dotfiles" (fspath home) ].
Proof.
  split.
  - apply (proj1 (prepare_dotfiles_return homeless_world [])). reflexivity.
  - apply (proj2 (prepare_dotfiles_return
                    (sample_world "Linux" "x86_64" empty_config [] all_succeed) [])).
    vm_compute. reflexivity.
Defined.

(** ** The home directory in the clean environment *)

Lemma rstrip_snoc c s : rstrip c (s +:+ String c "") = rstrip c s.
Proof.
  induction s as [| a s IH]; simpl.
  - rewrite Ascii.eqb_refl. reflexivity.
  - rewrite IH. reflexivity.
Qed.

Lemma rstrip_idem c s : rstrip c (rstrip c s) = rstrip c s.
Proof.
  induction s as [| a s IH]; simpl; [reflexivity |].
  destruct (String.eqb_spec (rstrip c s) "") as [He | Hne]; simpl.
  - destruct (Ascii.eqb a c) eqn:Ha; [reflexivity |].
    simpl. rewrite He. simpl. rewrite Ha. reflexivity.
  - simpl. rewrite IH. apply String.eqb_neq in Hne. rewrite Hne. reflexivity.
Qed.

Lemma append_empty_r s : s +:+ "" = s.
Proof.
  induction s as [| a s IH]; [reflexivity |].
  change (String a (s +:+ "") = String a s). f_equal. exact IH.
Qed.

(** X13: how the clean environment depends on the home directory.
    Trailing slashes of HOME are dropped, so that HOME with one more slash
    gives the same environment; the HOME entry is the root directory or
    ends without a slash; and when no home directory can be found the
    builder does not fail but leaves the tilde unexpanded in HOME and in
    the two user entries of PATH. *)
Theorem prepare_clean_env_home (w : World) :
  (forall home,
      environ w !! "HOME" = Some home ->
      _prepare_clean_env (set_environ w (<["HOME" := home +:+ "/"]> (environ w)))
      = _prepare_clean_env w)
  /\ (forall home v,
        userhome w "" = Some home ->
        _prepare_clean_env w !! "HOME" = Some v ->
        v = "/" \/ (v <> "" /\ rstrip "/" v = v))
  /\ (userhome w "" = None ->
      _prepare_clean_env w !! "HOME" = Some "~"
      /\ _prepare_clean_env w !! "PATH"
         = Some "~/.local/share/mise/shims:~/.local/bin:/bin:/usr/bin").
Proof.
  split; [| split].
  - intros home Hhome. unfold _prepare_clean_env.
    rewrite !expanduser_tilde, !expanduser_tilde_slash.
    assert (H1 : userhome w "" = Some home) by (unfold userhome; simpl; rewrite Hhome; reflexivity).
    assert (H2 : userhome (set_environ w (<["HOME" := home +:+ "/"]> (environ w))) ""
                 = Some (home +:+ "/"))
      by (unfold userhome; simpl; rewrite lookup_insert_eq; reflexivity).
    rewrite H1, H2. change posixpath.sep with "/"%char.
    rewrite (rstrip_snoc "/" home). reflexivity.
  - intros home v Hhome Hv. unfold _prepare_clean_env in Hv.
    rewrite lookup_insert_eq in Hv. rewrite expanduser_tilde, Hhome in Hv.
    rewrite append_empty_r in Hv. change posixpath.sep with "/"%char in Hv.
    destruct (String.eqb_spec (rstrip "/" home) "") as [He | Hne];
      injection Hv as <-; [left; reflexivity | right].
    split; [exact Hne | apply rstrip_idem].
  - intros Hnone. rewrite clean_env_PATH. unfold _prepare_clean_env, shim_dir, local_bin.
    rewrite lookup_insert_eq, expanduser_tilde, !expanduser_tilde_slash, Hnone.
    split; reflexivity.
Qed.

(** X13 on the sample machine and on one without a home directory. *)
Lemma prepare_clean_env_home_witness :
  _prepare_clean_env
    (set_environ (sample_world "Linux" "x86_64" empty_config [] all_succeed)
       (<["HOME" := "/home/user/"]>
          (environ (sample_world "Linux" "x86_64" empty_config [] all_succeed))))
  = _prepare_clean_env (sample_world "Linux" "x86_64" empty_config [] all_succeed)
  /\ _prepare_clean_env homeless_world !! "HOME" = Some "~".
Proof.
  split.
  - apply (proj1 (prepare_clean_env_home
                    (sample_world "Linux" "x86_64" empty_config [] all_succeed))
             "/home/user").
    reflexivity.
  - apply (proj2 (proj2 (prepare_clean_env_home homeless_world))). reflexivity.
Defined.

(** ** The resolved tag *)

(** X14: a tag the resolver returns is a single path segment: it is not
    empty, it is not the dot segment and it contains no slash, so that it
    adds exactly one segment to the download path it is put into. *)
Theorem resolve_tag_is_segment (p tag : string) :
  resolve_tag p = inr tag ->
  tag <> "" /\ tag <> "." /\ mem_char "/" tag = false.
Proof.
  intros Hres. unfold resolve_tag in Hres.
  destruct (match_release_tag_spec (PurePosixPath p))
    as [(a & b & c & tag' & Hparts & Hm) | [_ Hm]]; [| congruence].
  assert (tag' = tag) as -> by congruence.
  assert (Hin : tag ∈ tail (PurePosixPath p)).
  { unfold parts in Hparts.
    destruct (String.eqb (root (PurePosixPath p)) "").
    - rewrite Hparts. apply list_elem_of_In. simpl. tauto.
    - destruct (tail (PurePosixPath p)) as [| x l]; [discriminate |].
      injection Hparts as _ -> ->. apply list_elem_of_In. simpl. tauto. }
  apply tail_segments in Hin. unfold is_segment, keep_segment in Hin.
  apply andb_true_iff in Hin as [Hk Hs]. apply andb_true_iff in Hk as [H1 H2].
  apply negb_true_iff in H1, H2, Hs.
  apply String.eqb_neq in H1, H2. auto.
Qed.

(** X14 on scenario 2. *)
Lemma resolve_tag_is_segment_witness :
  "v1.2.3" <> "" /\ "v1.2.3" <> "." /\ mem_char "/" "v1.2.3" = false.
Proof.
  apply (resolve_tag_is_segment "/org/proj/releases/tag/v1.2.3" "v1.2.3"). reflexivity.
Defined.

(** ** The commands of any full run *)

Section Within.
Variable w : World.

Lemma steps_call args :
  args <> [] -> steps w (_check_call w args (_prepare_clean_env w)) [args].
Proof.
  intros Hargs pre. exists [args].
  rewrite (check_call_trace w args _ _ Hargs), rendered_app.
  split; [reflexivity |]. split; reflexivity.
Qed.

Lemma steps_when b args :
  args <> [] ->
  steps w (when b (_check_call w args (_prepare_clean_env w))) (if b then [args] else []).
Proof.
  intros Hargs. destruct b; [apply steps_call, Hargs |].
  intros pre. exists []. simpl. rewrite app_nil_r.
  split; [reflexivity |]. split; reflexivity.
Qed.

Lemma runs_within_seq m k pre c1 cs :
  steps w m c1 -> runs_within w k (pre ++ c1) cs ->
  runs_within w (bind m (fun _ => k)) pre (c1 ++ cs).
Proof.
  intros Hm Hk. destruct (Hm pre) as (d1 & Ht1 & Hp1 & Hr1).
  unfold runs_within in *. unfold bind.
  destruct (m (rendered w pre)) as [[e | []] h1]; simpl in *; subst h1.
  - exists d1. split; [reflexivity |]. split; [| discriminate].
    etrans; [exact Hp1 | apply prefix_app_r; reflexivity].
  - rewrite (Hr1 eq_refl). destruct Hk as (d2 & Ht2 & Hp2 & Hr2).
    exists (c1 ++ d2). rewrite Ht2, app_assoc. split; [reflexivity |].
    split; [apply prefix_app; exact Hp2 |].
    intros Hret. rewrite (Hr2 Hret). reflexivity.
Qed.

Lemma steps_for_each {A} (l : list A) (f : A -> list string) :
  (forall x, f x <> []) ->
  steps w (for_each l (fun x => _check_call w (f x) (_prepare_clean_env w))) (map f l).
Proof.
  intros Hf. induction l as [| x l IH]; intros pre.
  - exists []. simpl. rewrite app_nil_r.
    split; [reflexivity |]. split; reflexivity.
  - simpl. apply (runs_within_seq _ _ pre [f x]); [apply steps_call, Hf | apply IH].
Qed.

Lemma runs_within_call args k pre cs :
  args <> [] -> runs_within w k (pre ++ [args]) cs ->
  runs_within w (bind (_check_call w args (_prepare_clean_env w)) (fun _ => k)) pre
    (args :: cs).
Proof.
  intros Hargs Hk.
  apply (runs_within_seq _ _ pre [args]); [apply steps_call, Hargs | exact Hk].
Qed.

Lemma runs_within_assoc (m1 m2 k : M unit) pre cs :
  runs_within w (bind m1 (fun _ => bind m2 (fun _ => k))) pre cs ->
  runs_within w (bind (bind m1 (fun _ => m2)) (fun _ => k)) pre cs.
Proof. unfold runs_within. rewrite bind_assoc. auto. Qed.

Lemma runs_within_PATH (k : string -> M unit) pre cs :
  runs_within w (k (clean_PATH w)) pre cs ->
  runs_within w (bind (getitem (_prepare_clean_env w) "PATH") k) pre cs.
Proof.
  unfold runs_within. rewrite (bind_inr _ _ _ _ _ (getitem_clean_PATH _ _)). auto.
Qed.

Lemma runs_within_ask {A} (f : list event -> A) (k : A -> M unit) pre cs :
  runs_within w (k (f (rendered w pre))) pre cs -> runs_within w (bind (ask f) k) pre cs.
Proof. unfold runs_within. rewrite bind_ask. auto. Qed.
End Within.

Ltac within_step :=
  first
    [ apply runs_within_call; [discriminate |]
    | apply runs_within_seq;
        [ first [ apply steps_when; discriminate
                | apply steps_for_each; intros ?; discriminate ] |]
    | apply runs_within_PATH ].

Lemma main_runs_within w task_arg config :
  _parse_args task_arg = inr MAIN ->
  config_toml w = inr config ->
  runs_within w (main w task_arg) [] (expected_commands w config).
Proof.
  intros Hparse Hcfg. unfold runs_within, main. simpl rendered.
  rewrite (bind_lift_inr _ _ _ _ Hparse). unfold _load_config.
  rewrite (bind_lift_inr _ _ _ _ Hcfg). cbv zeta.
  change (@nil event) with (rendered w []).
  match goal with
  | |- exists done, (?m (rendered w ?pre)).2 = _ /\ done `prefix_of` ?cs /\ _ =>
      change (runs_within w m pre cs)
  end.
  unfold expected_commands, commands_before_mise at 1, commands_from_mise.
  repeat (rewrite <- app_comm_cons || rewrite <- app_assoc).
  apply runs_within_call; [discriminate |].
  apply runs_within_PATH, runs_within_ask.
  change (is_none (which w (rendered w ([] ++ [[sys_executable w; __file__ w;
            _Task_value PREPARE_DOTFILES]])) "docker" (clean_PATH w)))
    with (docker_missing w).
  repeat within_step.
  apply runs_within_ask.
  match goal with
  | |- context [which w (rendered w ?pre) "mise" _] =>
      replace pre with (commands_before_mise w config (docker_missing w))
        by (unfold commands_before_mise;
            repeat (rewrite <- app_comm_cons || rewrite <- app_assoc); reflexivity)
  end.
  fold (mise_missing w config).
  destruct (mise_missing w config).
  - repeat within_step. apply steps_for_each. intros ?. discriminate.
  - apply runs_within_assoc. repeat within_step.
    apply steps_for_each. intros ?. discriminate.
Qed.

(** X15: whatever the exit statuses, the commands a full run starts are an
    initial segment of [expected_commands], and they are all of it when
    the run returns; that list is the same on a machine that differs in
    its exit statuses only, so that a failure cuts the list short and
    changes nothing else in it. *)
Theorem main_commands_prefix
    (w : World) (task_arg : option string) (config : Config) :
  _parse_args task_arg = inr MAIN ->
  config_toml w = inr config ->
  commands (main w task_arg []).2 `prefix_of` expected_commands w config
  /\ ((main w task_arg []).1 = inr tt ->
      commands (main w task_arg []).2 = expected_commands w config)
  /\ (forall status,
        expected_commands (set_wait w status) config = expected_commands w config).
Proof.
  intros Hparse Hcfg.
  destruct (main_runs_within w task_arg config Hparse Hcfg) as (done & Htr & Hpre & Hret).
  simpl in Htr. rewrite Htr, commands_rendered.
  split; [exact Hpre | split; [exact Hret | reflexivity]].
Qed.

(** X15 on a machine where the upgrade exits with status 100, against the
    machine where every command exits with status zero. *)
Lemma main_commands_prefix_witness :
  commands (main (sample_world "Linux" "x86_64" full_config [] upgrade_fails) None []).2
    `prefix_of`
    expected_commands (sample_world "Linux" "x86_64" full_config [] upgrade_fails)
      full_config
  /\ expected_commands
       (set_wait (sample_world "Linux" "x86_64" full_config [] upgrade_fails)
          (fun _ _ _ => Some 0)) full_config
     = expected_commands (sample_world "Linux" "x86_64" full_config [] upgrade_fails)
         full_config.
Proof.
  split.
  - apply (main_commands_prefix
             (sample_world "Linux" "x86_64" full_config [] upgrade_fails) None full_config);
      reflexivity.
  - apply (main_commands_prefix
             (sample_world "Linux" "x86_64" full_config [] upgrade_fails) None full_config);
      reflexivity.
Defined.

(** Case analysis on membership in a list built from literals, appends,
    maps and conditionals. *)
Ltac in_cases H :=
  repeat match type of H with
         | _ \/ _ => destruct H as [H | H]
         | In _ (_ ++ _) => apply in_app_or in H
         | In _ (map _ _) => apply in_map_iff in H; destruct H as (? & H & _)
         | In _ (if ?b then _ else _) => destruct b
         | In _ [] => destruct H
         | In _ (_ :: _) => simpl in H
         | False => destruct H
         end.

Lemma expected_commands_docker_present w config c :
  docker_missing w = false ->
  In c (expected_commands w config) ->
  c <> ["sudo"; "usermod"; "-aG"; "docker"; getuser w]
  /\ c <> ["sudo"; sys_executable w; __file__ w; "prepare_docker"]
  /\ (forall operands,
        c = ["sudo"; "apt-get"; "-y"; "install"; "--"] ++ operands ->
        operands = apt config).
Proof.
  intros Hd Hin. unfold expected_commands, commands_before_mise, commands_from_mise in Hin.
  rewrite Hd in Hin. rewrite app_nil_r in Hin.
  in_cases Hin; subst c;
    (split; [discriminate | split; [discriminate |]]);
    intros operands Hops; first [discriminate Hops | injection Hops as <-; reflexivity].
Qed.

(** X16: when Docker is found on the clean PATH, no full run, whatever its
    course, starts the Docker repository sub-task or adds the user to the
    docker group, and a system package install it starts names the
    configured system packages only, not the Docker packages. *)
Theorem main_docker_present
    (w : World) (task_arg : option string) (config : Config) (c : list string) :
  _parse_args task_arg = inr MAIN ->
  config_toml w = inr config ->
  docker_missing w = false ->
  c ∈ commands (main w task_arg []).2 ->
  c <> ["sudo"; "usermod"; "-aG"; "docker"; getuser w]
  /\ c <> ["sudo"; sys_executable w; __file__ w; "prepare_docker"]
  /\ (forall operands,
        c = ["sudo"; "apt-get"; "-y"; "install"; "--"] ++ operands ->
        operands = apt config).
Proof.
  intros Hparse Hcfg Hd Hc.
  apply (expected_commands_docker_present w config c Hd).
  destruct (main_runs_within w task_arg config Hparse Hcfg) as (done & Htr & [k Hk] & _).
  simpl in Htr. rewrite Htr, commands_rendered in Hc.
  rewrite Hk. apply in_or_app. left. apply list_elem_of_In. exact Hc.
Qed.

(** X16 on a machine with Docker installed. *)
Lemma main_docker_present_witness :
  ["sudo"; "apt-get"; "-y"; "install"; "--"; "git"; "curl"]
  <> ["sudo"; "usermod"; "-aG"; "docker"; "user"]
  /\ ["sudo"; "apt-get"; "-y"; "install"; "--"; "git"; "curl"]
     <> ["sudo"; "/usr/bin/python3"; "/opt/setup/main.py"; "prepare_docker"]
  /\ (forall operands,
        ["sudo"; "apt-get"; "-y"; "install"; "--"; "git"; "curl"]
        = ["sudo"; "apt-get"; "-y"; "install"; "--"] ++ operands ->
        operands = ["git"; "curl"]).
Proof.
  apply (main_docker_present
           (sample_world "Linux" "x86_64" full_config ["docker"] all_succeed)
           None full_config).
  - reflexivity.
  - reflexivity.
  - reflexivity.
  - apply list_elem_of_In. vm_compute. tauto.
Defined.

(** ** Failure of the archive *)

(** X17: when the archive cannot be fetched, or is fetched but does not
    extract, the installer raises that error having created nothing under
    the home directory: the temporary directory is made and removed, and
    no directory is created and no file copied. *)
Theorem install_mise_failed_archive
    (w : World) (h : list event) (response : HTTPResponse) (tag system machine : string) :
  http w h latest_release_url = Some response ->
  resolve_tag (path (url response)) = inr tag ->
  match_system (uname_system w) = inr system ->
  match_machine (uname_machine w) = inr machine ->
  let h1 := h ++ [UrlOpen latest_release_url] in
  let tmpdir := mkdtemp w h1 in
  let archive := tarball_url tag (asset_name tag system machine) in
  (http w (h1 ++ [MkTemp tmpdir]) archive = None ->
   _install_mise w h
   = (inl (URLError archive), h1 ++ [MkTemp tmpdir; UrlOpen archive; Cleanup tmpdir]))
  /\ (forall fetched,
        http w (h1 ++ [MkTemp tmpdir]) archive = Some fetched ->
        tar_ok w (h1 ++ [MkTemp tmpdir; UrlOpen archive]) (body fetched) = false ->
        _install_mise w h
        = (inl TarError,
           h1 ++ [MkTemp tmpdir; UrlOpen archive; ExtractAll tmpdir; Cleanup tmpdir])).
Proof.
  intros Hhttp Htag Hsys Hm h1 tmpdir archive. unfold _install_mise.
  rewrite (bind_urlopen_some _ _ _ _ _ Hhttp).
  rewrite (bind_lift_inr _ _ _ _ Htag), (bind_lift_inr _ _ _ _ Hsys),
    (bind_lift_inr _ _ _ _ Hm).
  unfold with_TemporaryDirectory. fold h1. fold tmpdir. fold archive. split.
  - intros Hnone. unfold bind at 1, urlopen at 1. rewrite Hnone.
    rewrite <- !app_assoc. reflexivity.
  - intros fetched Hsome Htar. rewrite (bind_urlopen_some _ _ _ _ _ Hsome).
    unfold bind at 1, extractall at 1.
    rewrite <- app_assoc. simpl app. rewrite Htar.
    rewrite <- !app_assoc. reflexivity.
Qed.

(** X17 on a machine where the archive is unreachable and on one where it
    does not extract. *)
Lemma install_mise_failed_archive_witness :
  _install_mise archive_unreachable_world []
  = (inl (URLError (tarball_url "v2025.1.0" (asset_name "v2025.1.0" "linux" "x64"))),
     ([] ++ [UrlOpen latest_release_url])
     ++ [ MkTemp "/tmp/tmpdir";
          UrlOpen (tarball_url "v2025.1.0" (asset_name "v2025.1.0" "linux" "x64"));
          Cleanup "/tmp/tmpdir" ])
  /\ _install_mise archive_corrupt_world []
     = (inl TarError,
        ([] ++ [UrlOpen latest_release_url])
        ++ [ MkTemp "/tmp/tmpdir";
             UrlOpen (tarball_url "v2025.1.0" (asset_name "v2025.1.0" "linux" "x64"));
             ExtractAll "/tmp/tmpdir";
             Cleanup "/tmp/tmpdir" ]).
Proof.
  split.
  - apply (proj1 (install_mise_failed_archive archive_unreachable_world []
                    (redirect_to "/jdx/mise/releases/tag/v2025.1.0")
                    "v2025.1.0" "linux" "x64" eq_refl eq_refl eq_refl eq_refl)).
    reflexivity.
  - apply (proj2 (install_mise_failed_archive archive_corrupt_world []
                    (redirect_to "/jdx/mise/releases/tag/v2025.1.0")
                    "v2025.1.0" "linux" "x64" eq_refl eq_refl eq_refl eq_refl)
             (redirect_to "/jdx/mise/releases/tag/v2025.1.0"));
      reflexivity.
Defined.
